(** * PointsWithLabels: the scatterplot label layout and interaction model

    A shallow embedding of [PointsWithLabels.tsx] (the core scatterplot
    renderer): the render-data builder ([initialRenderData]), the label
    synthesizer ([makeStartLabel], [makeMidLabels], [makeEndLabel]), the
    collision resolver (the two passes at the end of [renderData]) and the
    pointer handlers ([onMouseMove], [onMouseLeave], [onClick]).

    JavaScript numbers are modelled as rationals [Q] with exact arithmetic.
    Label objects are shared between the series that owns them, the
    flattened label list and the priority-sorted list, and the resolver
    mutates them in place: they live in a store (a list) and are named by
    their position in it.  A label's back-reference to its series is the
    position of the series in the render data. *)

From Stdlib Require Import QArith Qround Lqa.
From stdpp Require Import base option list sorting strings pretty.

Local Open Scope Q_scope.

(** ** JavaScript helpers *)

Definition Qltb (a b : Q) : bool := negb (Qle_bool b a).

(** [n || d] on a possibly absent number: [undefined] and [0] are falsy. *)
Definition orNumber (n : option Q) (d : Q) : Q :=
  match n with
  | Some q => if Qeq_bool q 0 then d else q
  | None => d
  end.

(** [s || d] on a possibly absent string: [undefined] and the empty string
    are falsy. *)
Definition orString (s : option string) (d : string) : string :=
  match s with
  | Some EmptyString => d
  | Some str => str
  | None => d
  end.

(** Truthiness of a [string|null]. *)
Definition truthy (s : option string) : bool :=
  match s with
  | Some EmptyString => false
  | Some _ => true
  | None => false
  end.

(** [_.includes(keys, k)]. *)
Definition includes (keys : list string) (k : string) : bool :=
  bool_decide (k ∈ keys).

(** [_.sortBy]: a stable sort, ascending by the key of each element.  An
    element is put in front of the first element whose key is not smaller,
    so elements with equal keys keep their order. *)
Section SortBy.
Context {A K : Type} (leb : K -> K -> bool) (f : A -> K).

Fixpoint insertBy (a : A) (l : list A) : list A :=
  match l with
  | [] => [a]
  | b :: l' => if leb (f a) (f b) then a :: b :: l' else b :: insertBy a l'
  end.

Fixpoint sortByWith (l : list A) : list A :=
  match l with
  | [] => []
  | a :: l' => insertBy a (sortByWith l')
  end.
End SortBy.

Definition sortBy {A : Type} (f : A -> Q) (l : list A) : list A :=
  sortByWith Qle_bool f l.

(** The order lodash uses on keys that may be [undefined] (the result of
    [_.min] on an empty array): [undefined] sorts after every number. *)
Definition undefinedLast (a b : option Q) : bool :=
  match a, b with
  | Some p, Some q => Qle_bool p q
  | Some _, None => true
  | None, Some _ => false
  | None, None => true
  end.

(** [_.min] of an array of numbers; [undefined] when it is empty. *)
Definition minimum (l : list Q) : option Q :=
  match l with
  | [] => None
  | q :: l' => Some (fold_left (fun m p => if Qltb p m then p else m) l' q)
  end.

(** [d3.scaleLinear().range([r0, r1]).domain([d0, d1])] of the d3 library:
    the affine map that sends [d0] to [r0] and [d1] to [r1] (not clamped).
    On a degenerate domain d3 maps every input to [r0]; so does this
    definition, division by zero being zero in [Q]. *)
Definition scaleLinear (range domain : Q * Q) (v : Q) : Q :=
  fst range + (snd range - fst range) * ((v - fst domain) / (snd domain - fst domain)).

(** ** Geometry *)

Module Vector2.
Record t := mk { x : Q; y : Q }.

(** Modelled from the spec: [Vector2.ts] is not among the sources; the
    spec gives it as a 2-D vector arithmetic library. *)
Definition add (a b : t) : t := mk (x a + x b) (y a + y b).
Definition subtract (a b : t) : t := mk (x a - x b) (y a - y b).
Definition times (a : t) (k : Q) : t := mk (x a * k) (y a * k).
Definition zero : t := mk 0 0.

(** Modelled from the spec: both perpendicular candidates of a vector. *)
Definition normals (a : t) : list t := [mk (- y a) (x a); mk (y a) (- x a)].
End Vector2.

Module Bounds.
Record t := mk { x : Q; y : Q; width : Q; height : Q }.

(** Modelled from the spec: [Bounds.ts] is not among the sources; the
    spec gives it as an axis-aligned rectangle with intersection.  The
    edges are those of a box with corner [(x, y)] that extends to the
    right and downwards; boxes that only touch intersect. *)
Definition left (b : t) : Q := x b.
Definition top (b : t) : Q := y b.
Definition right (b : t) : Q := x b + width b.
Definition bottom (b : t) : Q := y b + height b.

(** [b.extend({ x: v })] and [b.extend({ y: v })]. *)
Definition extendX (b : t) (v : Q) : t := mk v (y b) (width b) (height b).
Definition extendY (b : t) (v : Q) : t := mk (x b) v (width b) (height b).

Definition intersects (r1 r2 : t) : bool :=
  negb (Qltb (right r1) (left r2) || Qltb (right r2) (left r1)
        || Qltb (bottom r1) (top r2) || Qltb (bottom r2) (top r1)).
End Bounds.

Global Instance Vector2_inhabited : Inhabited Vector2.t :=
  populate Vector2.zero.
Global Instance Bounds_inhabited : Inhabited Bounds.t :=
  populate (Bounds.mk 0 0 0 0).

(** ** Data model *)

Record ValueTime := { time_x : Q; time_y : Q }.

Module ScatterValue.
Record t := mk { x : Q; y : Q; size : option Q; year : Q; time : ValueTime }.
End ScatterValue.

Module ScatterSeries.
Record t := mk {
  color : option string;
  key : string;
  label : string;
  size : option Q;
  values : list ScatterValue.t
}.
End ScatterSeries.

Module ScatterRenderValue.
Record t := mk {
  position : Vector2.t;
  size : Q;
  fontSize : Q;
  time : ValueTime
}.
End ScatterRenderValue.

(** Absent optional booleans ([isHover?], [isHidden?], ...) are [false]:
    the code only ever tests them for truthiness.  The label fields of a
    series hold the places of its labels in the store. *)
Module ScatterRenderSeries.
Record t := mk {
  key : string;
  displayKey : string;
  color : string;
  size : Q;
  values : list ScatterRenderValue.t;
  text : string;
  isHover : bool;
  isFocus : bool;
  isForeground : bool;
  offsetVector : Vector2.t;
  startLabel : option nat;
  midLabels : list nat;
  endLabel : option nat;
  allLabels : list nat
}.
End ScatterRenderSeries.

(** [series] is the position of the owning series in the render data. *)
Module ScatterLabel.
Record t := mk {
  text : string;
  fontSize : Q;
  pos : Vector2.t;
  bounds : Bounds.t;
  series : nat;
  isHidden : bool;
  isStart : bool;
  isMid : bool;
  isEnd : bool
}.

Definition setBounds (l : t) (b : Bounds.t) : t :=
  mk (text l) (fontSize l) (pos l) b (series l) (isHidden l)
     (isStart l) (isMid l) (isEnd l).

Definition setHidden (l : t) (h : bool) : t :=
  mk (text l) (fontSize l) (pos l) (bounds l) (series l) h
     (isStart l) (isMid l) (isEnd l).
End ScatterLabel.

Global Instance ValueTime_inhabited : Inhabited ValueTime :=
  populate (Build_ValueTime 0 0).
Global Instance ScatterRenderValue_inhabited : Inhabited ScatterRenderValue.t :=
  populate (ScatterRenderValue.mk inhabitant 0 0 inhabitant).
Global Instance ScatterRenderSeries_inhabited : Inhabited ScatterRenderSeries.t :=
  populate (ScatterRenderSeries.mk "" "" "" 0 [] "" false false false
              inhabitant None [] None []).
Global Instance ScatterLabel_inhabited : Inhabited ScatterLabel.t :=
  populate (ScatterLabel.mk "" 0 inhabitant inhabitant 0 false false false false).

(** ** External collaborators

    The modules the renderer imports whose sources are not part of the
    development ([Util], the rest of [Vector2], [Bounds.forText]) and the
    JavaScript runtime functions without a rational counterpart. *)
Record Externals := {
  Math_sqrt : Q -> Q;
  Math_PI : Q;
  makeSafeForCSS : string -> string;
  defaultColorScale : string -> string;
  (** [n.toString()] *)
  toString : Q -> string;
  (** [Bounds.forText(text, { x, y, fontSize, fontFamily })], the font
      family being the constant [labelFontFamily] *)
  forText : string -> Q -> Q -> Q -> Bounds.t;
  normalize : Vector2.t -> Vector2.t;
  distance : Vector2.t -> Vector2.t -> Q;
  distanceSq : Vector2.t -> Vector2.t -> Q;
  distanceFromPointToLineSq : Vector2.t -> Vector2.t -> Vector2.t -> Q;
  up : Vector2.t
}.

(** Modelled from the spec: [AxisScale.ts] is not among the sources; an
    axis scale supports [extend(range)] and [place(value)], so it is given
    here by its placement function for each pixel range. *)
Definition AxisScale : Type := Q * Q -> Q -> Q.

(** Modelled from the spec: the pixel ranges of a rectangle, as
    [Bounds.xRange()] and [Bounds.yRange()] give them. *)
Definition xRange (b : Bounds.t) : Q * Q := (Bounds.left b, Bounds.right b).
Definition yRange (b : Bounds.t) : Q * Q := (Bounds.bottom b, Bounds.top b).

(** [PointsWithLabelsProps]; of the callbacks only their presence is kept,
    their calls are recorded by the handlers. *)
Record PointsWithLabelsProps := {
  props_data : list ScatterSeries.t;
  props_hoverKeys : list string;
  props_focusKeys : option (list string);
  props_bounds : Bounds.t;
  props_xScale : AxisScale;
  props_yScale : AxisScale;
  props_sizeDomain : Q * Q;
  props_onMouseOver : bool;
  props_onMouseLeave : bool
}.

(** The component: its props and its observable [hoverKey]. *)
Record PointsWithLabels := {
  props : PointsWithLabelsProps;
  hoverKey : option string
}.

(** The finalized render data: the series and the labels they share with
    the resolver. *)
Record RenderData := {
  rd_series : list ScatterRenderSeries.t;
  rd_labels : list ScatterLabel.t
}.

(** ** The collision resolver's two passes *)

(** The body of the bounds clamp, for one label. *)
Definition clampLabel (bounds : Bounds.t) (l : ScatterLabel.t) : ScatterLabel.t :=
  let l :=
    if Qltb (Bounds.left (ScatterLabel.bounds l)) (Bounds.left bounds - 1) then
      ScatterLabel.setBounds l
        (Bounds.extendX (ScatterLabel.bounds l)
           (Bounds.x (ScatterLabel.bounds l) + Bounds.width (ScatterLabel.bounds l)))
    else if Qltb (Bounds.right bounds + 1) (Bounds.right (ScatterLabel.bounds l)) then
      ScatterLabel.setBounds l
        (Bounds.extendX (ScatterLabel.bounds l)
           (Bounds.x (ScatterLabel.bounds l) - Bounds.width (ScatterLabel.bounds l)))
    else l in
  if Qltb (Bounds.top (ScatterLabel.bounds l)) (Bounds.top bounds - 1) then
    ScatterLabel.setBounds l
      (Bounds.extendY (ScatterLabel.bounds l) (Bounds.top bounds))
  else if Qltb (Bounds.bottom bounds + 1) (Bounds.bottom (ScatterLabel.bounds l)) then
    ScatterLabel.setBounds l
      (Bounds.extendY (ScatterLabel.bounds l)
         (Bounds.bottom bounds - Bounds.height (ScatterLabel.bounds l)))
  else l.

(** [_.each(allLabels, l => ...)]: the clamp, applied in place to every
    label of the list. *)
Definition clampPass (bounds : Bounds.t) (allLabels : list nat)
    (store : list ScatterLabel.t) : list ScatterLabel.t :=
  fold_left (fun st l => alter (clampLabel bounds) l st) allLabels store.

Definition labelPriority (renderData : list ScatterRenderSeries.t)
    (l : ScatterLabel.t) : Q :=
  let priority := ScatterLabel.fontSize l in
  let priority :=
    if ScatterRenderSeries.isHover (renderData !!! ScatterLabel.series l)
    then priority + 10000 else priority in
  let priority :=
    if ScatterRenderSeries.isFocus (renderData !!! ScatterLabel.series l)
    then priority + 1000 else priority in
  let priority :=
    if ScatterLabel.isEnd l then priority + 100 else priority in
  priority.

(** [_.sortBy(allLabels, l => -labelPriority(l))] *)
Definition labelsByPriority (renderData : list ScatterRenderSeries.t)
    (allLabels : list nat) (store : list ScatterLabel.t) : list nat :=
  sortBy (fun l => - labelPriority renderData (store !!! l)) allLabels.

Definition hide (l : nat) (store : list ScatterLabel.t) : list ScatterLabel.t :=
  alter (fun lab => ScatterLabel.setHidden lab true) l store.

(** The inner loop: [l1] against the labels after it in priority order. *)
Fixpoint collideWith (l1 : nat) (later : list nat)
    (store : list ScatterLabel.t) : list ScatterLabel.t :=
  match later with
  | [] => store
  | l2 :: later' =>
      if ScatterLabel.isHidden (store !!! l2) then collideWith l1 later' store
      else if Bounds.intersects (ScatterLabel.bounds (store !!! l1))
                (ScatterLabel.bounds (store !!! l2))
      then collideWith l1 later' (hide l2 store)
      else collideWith l1 later' store
  end.

(** The outer loop over the labels in priority order. *)
Fixpoint collide (labels : list nat) (store : list ScatterLabel.t)
    : list ScatterLabel.t :=
  match labels with
  | [] => store
  | l1 :: later =>
      if ScatterLabel.isHidden (store !!! l1) then collide later store
      else collide later (collideWith l1 later store)
  end.

(** The main collision detection. *)
Definition collisionPass (renderData : list ScatterRenderSeries.t)
    (allLabels : list nat) (store : list ScatterLabel.t) : list ScatterLabel.t :=
  collide (labelsByPriority renderData allLabels store) store.

(** The collision resolver: the clamp, then the collision detection. *)
Definition resolveLabels (bounds : Bounds.t)
    (renderData : list ScatterRenderSeries.t) (allLabels : list nat)
    (store : list ScatterLabel.t) : list ScatterLabel.t :=
  collisionPass renderData allLabels (clampPass bounds allLabels store).

(** ** The component's computed values *)

Section Renderer.
Context (E : Externals) (this : PointsWithLabels).

Definition focusKeys : list string :=
  default [] (props_focusKeys (props this)).

Definition hoverKeys : list string :=
  props_hoverKeys (props this)
    ++ (if truthy (hoverKey this) then option_list (hoverKey this) else []).

Definition isLayerMode : bool :=
  (0 <? length focusKeys)%nat || (0 <? length hoverKeys)%nat.

Definition data : list ScatterSeries.t := props_data (props this).

Definition bounds : Bounds.t := props_bounds (props this).

Definition xScale : Q -> Q := props_xScale (props this) (xRange bounds).

Definition yScale : Q -> Q := props_yScale (props this) (yRange bounds).

Definition isConnected : bool :=
  existsb (fun series => (1 <? length (ScatterSeries.values series))%nat) data.

Definition isSubtleForeground : bool :=
  (1 <? length focusKeys)%nat
  && existsb (fun series => (2 <? length (ScatterSeries.values series))%nat)
       (props_data (props this)).

Definition sizeScale : Q -> Q :=
  scaleLinear (10, 1000) (props_sizeDomain (props this)).

(** The domain of [sizeScale] is the size domain of the props. *)
Definition fontScale : Q -> Q :=
  scaleLinear (10, 13) (props_sizeDomain (props this)).

(** *** The render-data builder *)

Definition floor (q : Q) : Q := inject_Z (Qfloor q).

Definition initialRenderValue (d : ScatterSeries.t) (v : ScatterValue.t)
    : ScatterRenderValue.t :=
  let area := sizeScale (orNumber (ScatterValue.size v) 1) in
  {| ScatterRenderValue.position :=
       Vector2.mk (floor (xScale (ScatterValue.x v)))
                  (floor (yScale (ScatterValue.y v)));
     ScatterRenderValue.size := Math_sqrt E (area / Math_PI E);
     ScatterRenderValue.fontSize := fontScale (orNumber (ScatterSeries.size d) 1);
     ScatterRenderValue.time := ScatterValue.time v |}.

(** One series of [initialRenderData]; [None] is the [TypeError] of reading
    [size] of [_.last] of an empty array. *)
Definition initialRenderSeries (d : ScatterSeries.t)
    : option ScatterRenderSeries.t :=
  let values := map (initialRenderValue d) (ScatterSeries.values d) in
  lastValue ← last values;
  Some {| ScatterRenderSeries.key := ScatterSeries.key d;
          ScatterRenderSeries.displayKey :=
            "key-" +:+ makeSafeForCSS E (ScatterSeries.key d);
          ScatterRenderSeries.color :=
            orString (ScatterSeries.color d)
              (defaultColorScale E (ScatterSeries.key d));
          ScatterRenderSeries.size := ScatterRenderValue.size lastValue;
          ScatterRenderSeries.values := values;
          ScatterRenderSeries.text := ScatterSeries.label d;
          ScatterRenderSeries.isHover := false;
          ScatterRenderSeries.isFocus := false;
          ScatterRenderSeries.isForeground := false;
          ScatterRenderSeries.offsetVector := Vector2.zero;
          ScatterRenderSeries.startLabel := None;
          ScatterRenderSeries.midLabels := [];
          ScatterRenderSeries.endLabel := None;
          ScatterRenderSeries.allLabels := [] |}.

Definition initialRenderData : option (list ScatterRenderSeries.t) :=
  sortBy ScatterRenderSeries.size <$> mapM initialRenderSeries data.

(** *** The label synthesizer *)

(** The font size of the year labels. *)
Definition yearFontSize (series : ScatterRenderSeries.t) : Q :=
  if ScatterRenderSeries.isForeground series
  then (if isSubtleForeground then 8 else 9) else 7.

(** The box of a year label at [pos], moved off the point it annotates. *)
Definition yearBounds (text : string) (fontSize : Q) (pos anchor : Vector2.t)
    : Bounds.t :=
  let bounds := forText E text (Vector2.x pos) (Vector2.y pos) fontSize in
  let bounds :=
    if Qltb (Vector2.x pos) (Vector2.x anchor)
    then Bounds.mk (Bounds.x bounds - Bounds.width bounds + 2) (Bounds.y bounds)
           (Bounds.width bounds) (Bounds.height bounds)
    else bounds in
  if Qltb (Vector2.y anchor) (Vector2.y pos)
  then Bounds.mk (Bounds.x bounds) (Bounds.y bounds + Bounds.height bounds / 2)
         (Bounds.width bounds) (Bounds.height bounds)
  else bounds.

(** [series] is the position in the render data of the series [s]. *)
Definition makeStartLabel (series : nat) (s : ScatterRenderSeries.t)
    : option ScatterLabel.t :=
  if negb (ScatterRenderSeries.isForeground s)
     || (length (ScatterRenderSeries.values s) <=? 1)%nat
  then None
  else
    let fontSize := yearFontSize s in
    let firstValue := ScatterRenderSeries.values s !!! 0%nat in
    let nextValue := ScatterRenderSeries.values s !!! 1%nat in
    let nextSegment :=
      Vector2.subtract (ScatterRenderValue.position nextValue)
        (ScatterRenderValue.position firstValue) in
    let pos :=
      Vector2.subtract (ScatterRenderValue.position firstValue)
        (Vector2.times (normalize E nextSegment) 5) in
    let text := toString E (time_y (ScatterRenderValue.time firstValue)) in
    Some {| ScatterLabel.text := text;
            ScatterLabel.fontSize := fontSize;
            ScatterLabel.pos := ScatterRenderValue.position firstValue;
            ScatterLabel.bounds :=
              yearBounds text fontSize pos (ScatterRenderValue.position firstValue);
            ScatterLabel.series := series;
            ScatterLabel.isHidden := false;
            ScatterLabel.isStart := true;
            ScatterLabel.isMid := false;
            ScatterLabel.isEnd := false |}.

(** [values.slice(1, -1)] *)
Definition interior {A : Type} (l : list A) : list A :=
  take (length l - 2) (drop 1 l).

Definition makeMidLabel (series : nat) (s : ScatterRenderSeries.t)
    (i : nat) (v : ScatterRenderValue.t) : ScatterLabel.t :=
  let fontSize := yearFontSize s in
  let prevPos :=
    if (0 <? i)%nat
    then Some (ScatterRenderValue.position
                 (ScatterRenderSeries.values s !!! (i - 1)%nat))
    else None in
  let nextPos :=
    ScatterRenderValue.position (ScatterRenderSeries.values s !!! (i + 1)%nat) in
  let nextSegment := Vector2.subtract nextPos (ScatterRenderValue.position v) in
  let pos :=
    match prevPos with
    | Some prevPos =>
        let prevSegment :=
          Vector2.subtract (ScatterRenderValue.position v) prevPos in
        let normals :=
          map (fun x => Vector2.times x 5)
            (Vector2.normals (normalize E (Vector2.add prevSegment nextSegment))) in
        let potentialSpots :=
          map (fun n => Vector2.add (ScatterRenderValue.position v) n) normals in
        sortBy (fun p => - (distance E p prevPos + distance E p nextPos))
          potentialSpots !!! 0%nat
    | None =>
        Vector2.subtract (ScatterRenderValue.position v)
          (Vector2.times (normalize E nextSegment) 5)
    end in
  let text := toString E (time_y (ScatterRenderValue.time v)) in
  {| ScatterLabel.text := text;
     ScatterLabel.fontSize := fontSize;
     ScatterLabel.pos := ScatterRenderValue.position v;
     ScatterLabel.bounds :=
       yearBounds text fontSize pos (ScatterRenderValue.position v);
     ScatterLabel.series := series;
     ScatterLabel.isHidden := false;
     ScatterLabel.isStart := false;
     ScatterLabel.isMid := true;
     ScatterLabel.isEnd := false |}.

Definition makeMidLabels (series : nat) (s : ScatterRenderSeries.t)
    : list ScatterLabel.t :=
  if negb (ScatterRenderSeries.isForeground s)
     || (length (ScatterRenderSeries.values s) <=? 1)%nat
     || (negb (ScatterRenderSeries.isHover s) && isSubtleForeground)
  then []
  else imap (makeMidLabel series s) (interior (ScatterRenderSeries.values s)).

(** The end label and the offset vector the function stores in the
    series; [None] is the [TypeError] of reading [position] of [_.last] of
    an empty array. *)
Definition makeEndLabel (series : nat) (s : ScatterRenderSeries.t)
    : option (ScatterLabel.t * Vector2.t) :=
  lastValue ← last (ScatterRenderSeries.values s);
  let lastPos := ScatterRenderValue.position lastValue in
  let fontSize :=
    ScatterRenderValue.fontSize lastValue
    * (if ScatterRenderSeries.isForeground s
       then (if isSubtleForeground then 1.2 else 1.3) else 1.1) in
  let offsetVector :=
    if (1 <? length (ScatterRenderSeries.values s))%nat
    then
      let prevValue :=
        ScatterRenderSeries.values s
          !!! (length (ScatterRenderSeries.values s) - 2)%nat in
      Vector2.subtract lastPos (ScatterRenderValue.position prevValue)
    else up E in
  let labelPos :=
    Vector2.add lastPos
      (Vector2.times (normalize E offsetVector)
         (if (length (ScatterRenderSeries.values s) =? 1)%nat
          then ScatterRenderValue.size lastValue + 1 else 5)) in
  let labelBounds :=
    forText E (ScatterRenderSeries.text s) (Vector2.x labelPos)
      (Vector2.y labelPos) fontSize in
  let labelBounds :=
    if Qltb (Vector2.x labelPos) (Vector2.x lastPos)
    then Bounds.extendX labelBounds (Bounds.x labelBounds - Bounds.width labelBounds)
    else labelBounds in
  let labelBounds :=
    if Qltb (Vector2.y lastPos) (Vector2.y labelPos)
    then Bounds.extendY labelBounds
           (Bounds.y labelBounds + Bounds.height labelBounds / 2)
    else labelBounds in
  Some ({| ScatterLabel.text := ScatterRenderSeries.text s;
           ScatterLabel.fontSize := fontSize;
           ScatterLabel.pos := labelPos;
           ScatterLabel.bounds := labelBounds;
           ScatterLabel.series := series;
           ScatterLabel.isHidden := false;
           ScatterLabel.isStart := false;
           ScatterLabel.isMid := false;
           ScatterLabel.isEnd := true |}, offsetVector).

(** *** The render data *)

(** The body of the first [_.each] of [renderData]. *)
Definition markSeries (s : ScatterRenderSeries.t) : ScatterRenderSeries.t :=
  let isHover := includes hoverKeys (ScatterRenderSeries.key s) in
  let isFocus := includes focusKeys (ScatterRenderSeries.key s) in
  {| ScatterRenderSeries.key := ScatterRenderSeries.key s;
     ScatterRenderSeries.displayKey := ScatterRenderSeries.displayKey s;
     ScatterRenderSeries.color := ScatterRenderSeries.color s;
     ScatterRenderSeries.size :=
       if isHover then ScatterRenderSeries.size s + 1
       else ScatterRenderSeries.size s;
     ScatterRenderSeries.values := ScatterRenderSeries.values s;
     ScatterRenderSeries.text := ScatterRenderSeries.text s;
     ScatterRenderSeries.isHover := isHover;
     ScatterRenderSeries.isFocus := isFocus;
     ScatterRenderSeries.isForeground := isHover || isFocus;
     ScatterRenderSeries.offsetVector := ScatterRenderSeries.offsetVector s;
     ScatterRenderSeries.startLabel := ScatterRenderSeries.startLabel s;
     ScatterRenderSeries.midLabels := ScatterRenderSeries.midLabels s;
     ScatterRenderSeries.endLabel := ScatterRenderSeries.endLabel s;
     ScatterRenderSeries.allLabels := ScatterRenderSeries.allLabels s |}.

(** The body of the second [_.each]: the labels of the series at position
    [series] are created at the end of the store, and the series keeps
    their names. *)
Definition labelSeries (series : nat) (s : ScatterRenderSeries.t)
    (store : list ScatterLabel.t)
    : option (ScatterRenderSeries.t * list ScatterLabel.t) :=
  let start := makeStartLabel series s in
  let startLabel := (fun _ => length store) <$> start in
  let store := store ++ option_list start in
  let mids := makeMidLabels series s in
  let midLabels := seq (length store) (length mids) in
  let store := store ++ mids in
  '(lend, offsetVector) ← makeEndLabel series s;
  let endLabel := length store in
  let store := store ++ [lend] in
  Some ({| ScatterRenderSeries.key := ScatterRenderSeries.key s;
           ScatterRenderSeries.displayKey := ScatterRenderSeries.displayKey s;
           ScatterRenderSeries.color := ScatterRenderSeries.color s;
           ScatterRenderSeries.size := ScatterRenderSeries.size s;
           ScatterRenderSeries.values := ScatterRenderSeries.values s;
           ScatterRenderSeries.text := ScatterRenderSeries.text s;
           ScatterRenderSeries.isHover := ScatterRenderSeries.isHover s;
           ScatterRenderSeries.isFocus := ScatterRenderSeries.isFocus s;
           ScatterRenderSeries.isForeground := ScatterRenderSeries.isForeground s;
           ScatterRenderSeries.offsetVector := offsetVector;
           ScatterRenderSeries.startLabel := startLabel;
           ScatterRenderSeries.midLabels := midLabels;
           ScatterRenderSeries.endLabel := Some endLabel;
           ScatterRenderSeries.allLabels :=
             option_list startLabel ++ midLabels ++ [endLabel] |},
        store).

(** The second [_.each], from the series at position [series] on. *)
Fixpoint labelEach (series : nat) (renderData : list ScatterRenderSeries.t)
    (store : list ScatterLabel.t)
    : option (list ScatterRenderSeries.t * list ScatterLabel.t) :=
  match renderData with
  | [] => Some ([], store)
  | s :: rest =>
      '(s', store) ← labelSeries series s store;
      '(rest', store) ← labelEach (S series) rest store;
      Some (s' :: rest', store)
  end.

(** [renderData], from the value of [initialRenderData]. *)
Definition renderDataFrom (initialRenderData : list ScatterRenderSeries.t)
    : option RenderData :=
  let renderData :=
    sortBy (fun d => - ScatterRenderSeries.size d) initialRenderData in
  let renderData := markSeries <$> renderData in
  '(renderData, store) ← labelEach 0 renderData [];
  let allLabels := concat (ScatterRenderSeries.allLabels <$> renderData) in
  Some {| rd_series := renderData;
          rd_labels := resolveLabels bounds renderData allLabels store |}.

Definition renderData : option RenderData :=
  initialRenderData ≫= renderDataFrom.

Definition backgroundGroups (rd : RenderData) : list ScatterRenderSeries.t :=
  filter (fun group => ScatterRenderSeries.isForeground group = false)
    (rd_series rd).

Definition foregroundGroups (rd : RenderData) : list ScatterRenderSeries.t :=
  filter (fun group => ScatterRenderSeries.isForeground group = true)
    (rd_series rd).

(** *** The pointer handlers

    Each handler runs in an animation frame of its own; it gives the
    component after the frame and the callbacks of the props it called. *)

Inductive Callback :=
  | OnMouseOver (series : ScatterSeries.t)
  | OnMouseLeave
  | OnSelectEntity (datakey : string).

Definition setHoverKey (k : option string) : PointsWithLabels :=
  {| props := props this; hoverKey := k |}.

Definition onMouseLeave : PointsWithLabels * list Callback :=
  (setHoverKey None,
   if props_onMouseLeave (props this) then [OnMouseLeave] else []).

(** The sort key of [onMouseMove]: how far the series is from the mouse. *)
Definition mouseDistance (mouse : Vector2.t) (series : ScatterRenderSeries.t)
    : option Q :=
  if isConnected then
    minimum
      (imap (fun i d =>
               distanceFromPointToLineSq E mouse (ScatterRenderValue.position d)
                 (ScatterRenderValue.position
                    (ScatterRenderSeries.values series !!! (i + 1)%nat)))
         (take (length (ScatterRenderSeries.values series) - 1)
            (ScatterRenderSeries.values series)))
  else
    minimum
      (map (fun v => distanceSq E (ScatterRenderValue.position v) mouse)
         (ScatterRenderSeries.values series)).

(** [mouse] is the result of [getRelativeMouse].  When [renderData] throws,
    so does the handler, and the component is as before. *)
Definition onMouseMove (mouse : Vector2.t) : PointsWithLabels * list Callback :=
  match renderData with
  | None => (this, [])
  | Some rd =>
      let closestSeries :=
        head (sortByWith undefinedLast (mouseDistance mouse) (rd_series rd)) in
      let hoverKey :=
        match closestSeries with
        | Some series => Some (ScatterRenderSeries.key series)
        | None => None
        end in
      (setHoverKey hoverKey,
       if props_onMouseOver (props this) then
         match hoverKey with
         | Some k =>
             match find (fun d => String.eqb (ScatterSeries.key d) k) data with
             | Some datum => [OnMouseOver datum]
             | None => []
             end
         | None => []
         end
       else [])
  end.

Definition onClick : PointsWithLabels * list Callback :=
  (this,
   if truthy (hoverKey this)
   then option_list (OnSelectEntity <$> hoverKey this) else []).

End Renderer.

(** ** The interaction controller as a transition system *)

Inductive Event :=
  | MouseMove (mouse : Vector2.t)
  | MouseLeave
  | Click
  | SetProps (p : PointsWithLabelsProps).

Definition step (E : Externals) (this : PointsWithLabels) (e : Event)
    : PointsWithLabels :=
  match e with
  | MouseMove mouse => fst (onMouseMove E this mouse)
  | MouseLeave => fst (onMouseLeave this)
  | Click => fst (onClick this)
  | SetProps p => {| props := p; hoverKey := hoverKey this |}
  end.


(** The component as constructed: no hover key. *)
Definition mount (p : PointsWithLabelsProps) : PointsWithLabels :=
  {| props := p; hoverKey := None |}.

(** ** A concrete environment

    Stand-ins for the external collaborators, to run the model on
    examples: square roots rounded down to a multiple of the denominator's
    inverse, a fixed-pitch text box, years printed as integers. *)

Definition sampleSqrt (q : Q) : Q :=
  Qmake (Z.sqrt (Qnum q * Zpos (Qden q))) (Qden q).

Definition sampleMagnitude (v : Vector2.t) : Q :=
  sampleSqrt (Vector2.x v * Vector2.x v + Vector2.y v * Vector2.y v).

Definition sampleNormalize (v : Vector2.t) : Vector2.t :=
  let magnitude := sampleMagnitude v in
  if Qltb 0 magnitude
  then Vector2.mk (Vector2.x v / magnitude) (Vector2.y v / magnitude)
  else Vector2.zero.

Definition sampleDistanceSq (a b : Vector2.t) : Q :=
  let d := Vector2.subtract a b in
  Vector2.x d * Vector2.x d + Vector2.y d * Vector2.y d.

Definition sampleDistanceToSegmentSq (p v w : Vector2.t) : Q :=
  let l2 := sampleDistanceSq v w in
  if Qeq_bool l2 0 then sampleDistanceSq p v
  else
    let d := Vector2.subtract w v in
    let q := Vector2.subtract p v in
    let t := (Vector2.x q * Vector2.x d + Vector2.y q * Vector2.y d) / l2 in
    let t := if Qltb t 0 then 0 else if Qltb 1 t then 1 else t in
    sampleDistanceSq p (Vector2.add v (Vector2.times d t)).

Definition sampleForText (text : string) (x y fontSize : Q) : Bounds.t :=
  Bounds.mk x (y - fontSize)
    (fontSize * 0.6 * inject_Z (Z.of_nat (String.length text))) fontSize.

Definition sampleExternals : Externals :=
  {| Math_sqrt := sampleSqrt;
     Math_PI := 3.1416;
     makeSafeForCSS := fun s => s;
     defaultColorScale := fun _ => "#1f77b4";
     toString := fun q => pretty (Qfloor q);
     forText := sampleForText;
     normalize := sampleNormalize;
     distance := fun a b => sampleSqrt (sampleDistanceSq a b);
     distanceSq := sampleDistanceSq;
     distanceFromPointToLineSq := sampleDistanceToSegmentSq;
     up := Vector2.mk 0 (-1) |}.

Definition sampleValue (x y : Q) (size : option Q) (year : Q) : ScatterValue.t :=
  ScatterValue.mk x y size year (Build_ValueTime year year).

(** Two series over a plot of 100 by 100 pixels whose scales are the
    identity: one with three values, one with a single value. *)
Definition sampleProps : PointsWithLabelsProps :=
  {| props_data :=
       [ScatterSeries.mk (Some "#f00") "a" "Alpha" (Some 4)
          [sampleValue 10 10 (Some 2) 2000; sampleValue 30 40 (Some 4) 2001;
           sampleValue 60 50 (Some 8) 2002];
        ScatterSeries.mk None "b" "Beta" (Some 6)
          [sampleValue 80 20 (Some 6) 2002]];
     props_hoverKeys := [];
     props_focusKeys := Some ["a"];
     props_bounds := Bounds.mk 0 0 100 100;
     props_xScale := fun _ v => v;
     props_yScale := fun _ v => v;
     props_sizeDomain := (0, 10);
     props_onMouseOver := true;
     props_onMouseLeave := true |}.

(** ** Statements

    The predicates the properties below are stated with. *)

(** What the collision detection may do to a label: set [isHidden], and
    never clear it. *)
Definition hiddenOnly (l l' : ScatterLabel.t) : Prop :=
  l' = ScatterLabel.setHidden l (ScatterLabel.isHidden l')
  /\ (ScatterLabel.isHidden l = true -> ScatterLabel.isHidden l' = true).

(** What the clamp may do to a label: move its box. *)
Definition movedOnly (l l' : ScatterLabel.t) : Prop :=
  l' = ScatterLabel.setBounds l (ScatterLabel.bounds l')
  /\ Bounds.width (ScatterLabel.bounds l') = Bounds.width (ScatterLabel.bounds l)
  /\ Bounds.height (ScatterLabel.bounds l') = Bounds.height (ScatterLabel.bounds l).

(** Two boxes at the same place, of the same size. *)
Definition sameBox (b b' : Bounds.t) : Prop :=
  Bounds.x b' == Bounds.x b /\ Bounds.y b' == Bounds.y b
  /\ Bounds.width b' == Bounds.width b /\ Bounds.height b' == Bounds.height b.

(** Every field but [isHidden] is as before. *)
Definition onlyIsHiddenWritten (l l' : ScatterLabel.t) : Prop :=
  ScatterLabel.text l' = ScatterLabel.text l
  /\ ScatterLabel.fontSize l' == ScatterLabel.fontSize l
  /\ ScatterLabel.pos l' = ScatterLabel.pos l
  /\ sameBox (ScatterLabel.bounds l) (ScatterLabel.bounds l')
  /\ ScatterLabel.series l' = ScatterLabel.series l
  /\ ScatterLabel.isStart l' = ScatterLabel.isStart l
  /\ ScatterLabel.isMid l' = ScatterLabel.isMid l
  /\ ScatterLabel.isEnd l' = ScatterLabel.isEnd l.

(** Every field but [isHidden] and the place of the box is as before. *)
Definition onlyPlaceAndIsHiddenWritten (l l' : ScatterLabel.t) : Prop :=
  ScatterLabel.text l' = ScatterLabel.text l
  /\ ScatterLabel.fontSize l' = ScatterLabel.fontSize l
  /\ ScatterLabel.pos l' = ScatterLabel.pos l
  /\ Bounds.width (ScatterLabel.bounds l') = Bounds.width (ScatterLabel.bounds l)
  /\ Bounds.height (ScatterLabel.bounds l') = Bounds.height (ScatterLabel.bounds l)
  /\ ScatterLabel.series l' = ScatterLabel.series l
  /\ ScatterLabel.isStart l' = ScatterLabel.isStart l
  /\ ScatterLabel.isMid l' = ScatterLabel.isMid l
  /\ ScatterLabel.isEnd l' = ScatterLabel.isEnd l.

(** A box within the plot, up to the tolerance of one pixel of the clamp. *)
Definition fits (bounds b : Bounds.t) : Prop :=
  Bounds.left bounds - 1 <= Bounds.left b
  /\ Bounds.right b <= Bounds.right bounds + 1
  /\ Bounds.top bounds - 1 <= Bounds.top b
  /\ Bounds.bottom b <= Bounds.bottom bounds + 1.

(** A flag as the number it adds to a sum. *)
Definition boolQ (b : bool) : Q := if b then 1 else 0.


(** The claim that the font size of a render value comes from the size of
    the value itself. *)
Definition fontSizeFromValue (E : Externals) (this : PointsWithLabels) : Prop :=
  forall d v,
    d ∈ data this -> v ∈ ScatterSeries.values d ->
    ScatterRenderValue.fontSize (initialRenderValue E this d v)
    == scaleLinear (10, 13) (props_sizeDomain (props this))
         (orNumber (ScatterValue.size v) 1).


(** The hover key is absent, or the key of a series of the input list. *)
Definition hoverKeyPresent (this : PointsWithLabels) : Prop :=
  match hoverKey this with
  | None => True
  | Some k => k ∈ ScatterSeries.key <$> data this
  end.

(** An event that leaves the input series list of the props [p] as it is. *)
Definition keepsData (p : PointsWithLabelsProps) (e : Event) : Prop :=
  match e with
  | SetProps p' => props_data p' = props_data p
  | _ => True
  end.

(** ** Example inputs *)

(** A background series, for the priority of the labels below. *)
Definition plainSeries (key : string) : ScatterRenderSeries.t :=
  ScatterRenderSeries.mk key ("key-" +:+ key) "#000" 2 [] key
    false false false Vector2.zero None [] None [].

(** An end label of the series at position 0 with the box [b]. *)
Definition endLabelAt (text : string) (fontSize : Q) (b : Bounds.t)
    : ScatterLabel.t :=
  ScatterLabel.mk text fontSize (Vector2.mk (Bounds.x b) (Bounds.y b)) b 0
    false false false true.

(** A plot of 100 by 100 pixels. *)
Definition plot100 : Bounds.t := Bounds.mk 0 0 100 100.

(** A label ten pixels left of the plot, five pixels wide. *)
Definition farLeft : list ScatterLabel.t :=
  [endLabelAt "Far" 11 (Bounds.mk (-10) 10 5 5)].

(** A label three pixels left of the plot, five pixels wide. *)
Definition nearLeft : list ScatterLabel.t :=
  [endLabelAt "Near" 11 (Bounds.mk (-3) 10 5 5)].

(** Three labels of one series on the same box, of font sizes 13, 12
    and 11. *)
Definition stacked : list ScatterLabel.t :=
  [endLabelAt "A" 13 (Bounds.mk 10 10 20 10);
   endLabelAt "B" 12 (Bounds.mk 10 10 20 10);
   endLabelAt "C" 11 (Bounds.mk 10 10 20 10)].


(** Two series with a single value each, at the same point. *)
Definition crowdedProps : PointsWithLabelsProps :=
  {| props_data :=
       [ScatterSeries.mk None "a" "Alpha" (Some 4)
          [sampleValue 50 50 (Some 5) 2000];
        ScatterSeries.mk None "b" "Beta" (Some 6)
          [sampleValue 50 50 (Some 5) 2000]];
     props_hoverKeys := [];
     props_focusKeys := None;
     props_bounds := plot100;
     props_xScale := fun _ v => v;
     props_yScale := fun _ v => v;
     props_sizeDomain := (0, 10);
     props_onMouseOver := true;
     props_onMouseLeave := true |}.

(** The sample props with no series in focus: both series are background. *)
Definition plainProps : PointsWithLabelsProps :=
  {| props_data := props_data sampleProps;
     props_hoverKeys := [];
     props_focusKeys := None;
     props_bounds := plot100;
     props_xScale := fun _ v => v;
     props_yScale := fun _ v => v;
     props_sizeDomain := (0, 10);
     props_onMouseOver := true;
     props_onMouseLeave := true |}.


(** The render data of the example props. *)
Definition sampleRenderData : RenderData :=
  default (Build_RenderData [] [])
    (renderData sampleExternals (mount sampleProps)).

(** The first series of that render data. *)
Definition sampleFirstSeries : ScatterRenderSeries.t :=
  rd_series sampleRenderData !!! 0%nat.

Definition crowdedRenderData : RenderData :=
  default (Build_RenderData [] [])
    (renderData sampleExternals (mount crowdedProps)).

Definition plainRenderData : RenderData :=
  default (Build_RenderData [] [])
    (renderData sampleExternals (mount plainProps)).

(** The sample props with both series in focus: subtle-foreground mode. *)
Definition subtleProps : PointsWithLabelsProps :=
  {| props_data := props_data sampleProps;
     props_hoverKeys := [];
     props_focusKeys := Some ["a"; "b"];
     props_bounds := plot100;
     props_xScale := fun _ v => v;
     props_yScale := fun _ v => v;
     props_sizeDomain := (0, 10);
     props_onMouseOver := true;
     props_onMouseLeave := true |}.

Definition subtleRenderData : RenderData :=
  default (Build_RenderData [] [])
    (renderData sampleExternals (mount subtleProps)).

(** The two series at one point, with the series "a" hovered. *)
Definition hoveredProps : PointsWithLabelsProps :=
  {| props_data := props_data crowdedProps;
     props_hoverKeys := ["a"];
     props_focusKeys := None;
     props_bounds := plot100;
     props_xScale := fun _ v => v;
     props_yScale := fun _ v => v;
     props_sizeDomain := (0, 10);
     props_onMouseOver := true;
     props_onMouseLeave := true |}.

Definition hoveredRenderData : RenderData :=
  default (Build_RenderData [] [])
    (renderData sampleExternals (mount hoveredProps)).

(** ** The callbacks of a run *)

(** The callbacks of the props that the handler of an event calls. *)
Definition callbacks (E : Externals) (this : PointsWithLabels) (e : Event)
    : list Callback :=
  match e with
  | MouseMove mouse => snd (onMouseMove E this mouse)
  | MouseLeave => snd (onMouseLeave this)
  | Click => snd (onClick this)
  | SetProps _ => []
  end.

(** The callbacks called along a run, in order. *)
Fixpoint runCallbacks (E : Externals) (this : PointsWithLabels)
    (es : list Event) : list Callback :=
  match es with
  | [] => []
  | e :: es' => callbacks E this e ++ runCallbacks E (step E this e) es'
  end.

(** A callback that is given a series or a key of the input list of the
    props [p]. *)
Definition callbackOnData (p : PointsWithLabelsProps) (c : Callback) : Prop :=
  match c with
  | OnMouseOver series => series ∈ props_data p
  | OnMouseLeave => True
  | OnSelectEntity datakey => datakey ∈ ScatterSeries.key <$> props_data p
  end.

(** ** The presentation layer

    What the component renders: elements with their props, text, arrays
    of elements, and [null] or [false], for which nothing is drawn. *)

Inductive Attr :=
  | ANum (q : Q)
  | AStr (s : string)
  | ABounds (b : Bounds.t)
  | AHandler (name : string).

#[warnings="-register-all"]
Inductive Element :=
  | El (tag : string) (attrs : list (string * Attr)) (children : list Element)
  | Txt (s : string)
  | Arr (items : list Element)
  | Nothing.

(** The functions of [Vector2] and [Bounds] that only the drawing uses;
    their sources are not part of the development. *)
Record DrawingExternals := {
  (** [Vector2.angle(a, b)] *)
  angle : Vector2.t -> Vector2.t -> Q;
  (** [b.pad(amount)] *)
  pad : Bounds.t -> Q -> Bounds.t
}.

Definition labelFontFamily : string := "Arial Narrow, Arial, sans-serif".

Section Presentation.
Context (E : Externals) (D : DrawingExternals) (this : PointsWithLabels).

(** [_.map(series.values, v => `${v.position.x},${v.position.y}`).join(' ')] *)
Definition polylinePoints (series : ScatterRenderSeries.t) : string :=
  String.concat " "
    (map (fun v =>
            toString E (Vector2.x (ScatterRenderValue.position v))
            +:+ "," +:+ toString E (Vector2.y (ScatterRenderValue.position v)))
       (ScatterRenderSeries.values series)).

Definition renderBackgroundLine (series : ScatterRenderSeries.t) : Element :=
  let firstValue := ScatterRenderSeries.values series !!! 0%nat in
  let color :=
    if negb (isLayerMode this) then ScatterRenderSeries.color series
    else "#e2e2e2" in
  if negb (isConnected this) then
    El "circle"
      [("key", AStr (ScatterRenderSeries.displayKey series +:+ "-end"));
       ("cx", ANum (Vector2.x (ScatterRenderValue.position firstValue)));
       ("cy", ANum (Vector2.y (ScatterRenderValue.position firstValue)));
       ("r", ANum (ScatterRenderValue.size firstValue));
       ("fill", AStr color);
       ("opacity", ANum 0.8);
       ("stroke", AStr "#ccc")] []
  else if (length (ScatterRenderSeries.values series) =? 1)%nat then
    Nothing
  else
    let lastValue :=
      default inhabitant (last (ScatterRenderSeries.values series)) in
    let rotation := angle D (ScatterRenderSeries.offsetVector series) (up E) in
    let rotation :=
      if Qltb (Vector2.x (ScatterRenderSeries.offsetVector series)) 0
      then - rotation else rotation in
    El "g"
      [("key", AStr (ScatterRenderSeries.displayKey series));
       ("className", AStr (ScatterRenderSeries.displayKey series))]
      [El "circle"
         [("cx", ANum (Vector2.x (ScatterRenderValue.position firstValue)));
          ("cy", ANum (Vector2.y (ScatterRenderValue.position firstValue)));
          ("r", ANum (1 + ScatterRenderValue.size firstValue / 16));
          ("fill",
           AStr (if negb (isLayerMode this)
                 then ScatterRenderSeries.color series else "#e2e2e2"));
          ("stroke", AStr "#ccc");
          ("opacity", ANum 0.6)] [];
       El "polyline"
         [("strokeLinecap", AStr "round");
          ("stroke",
           AStr (if isLayerMode this then "#ccc"
                 else ScatterRenderSeries.color series));
          ("points", AStr (polylinePoints series));
          ("fill", AStr "none");
          ("strokeWidth", ANum (0.3 + ScatterRenderSeries.size series / 16));
          ("opacity", ANum 0.6)] [];
       El "Triangle"
         [("transform",
           AStr ("rotate(" +:+ toString E rotation +:+ ", "
                 +:+ toString E (Vector2.x (ScatterRenderValue.position lastValue))
                 +:+ ", "
                 +:+ toString E (Vector2.y (ScatterRenderValue.position lastValue))
                 +:+ ")"));
          ("cx", ANum (Vector2.x (ScatterRenderValue.position lastValue)));
          ("cy", ANum (Vector2.y (ScatterRenderValue.position lastValue)));
          ("r", ANum (1 + ScatterRenderValue.size lastValue / 16));
          ("fill", AStr color);
          ("stroke", AStr "#ccc");
          ("strokeWidth", ANum 0.2);
          ("opacity", ANum 0.6)] []].

Definition renderBackgroundLines (rd : RenderData) : list Element :=
  renderBackgroundLine <$> backgroundGroups rd.

(** The labels that a series lists, as they are in the store. *)
Definition labelsOf (rd : RenderData) (series : ScatterRenderSeries.t)
    : list ScatterLabel.t :=
  (fun l => rd_labels rd !!! l) <$> ScatterRenderSeries.allLabels series.

Definition renderBackgroundLabels (rd : RenderData) : list Element :=
  (fun series =>
     Arr ((fun l =>
             if ScatterLabel.isHidden l then Nothing
             else
               El "text"
                 [("key",
                   AStr (ScatterRenderSeries.displayKey series
                         +:+ "-endLabel"));
                  ("x", ANum (Bounds.x (ScatterLabel.bounds l)));
                  ("y", ANum (Bounds.y (ScatterLabel.bounds l)
                              + Bounds.height (ScatterLabel.bounds l)));
                  ("fontSize", ANum (ScatterLabel.fontSize l));
                  ("fontFamily", AStr labelFontFamily);
                  ("fill",
                   AStr (if negb (isLayerMode this) then "#666" else "#aaa"))]
                 [Txt (ScatterLabel.text l)])
          <$> labelsOf rd series))
  <$> backgroundGroups rd.

Definition renderForegroundLine (series : ScatterRenderSeries.t) : Element :=
  let lastValue :=
    default inhabitant (last (ScatterRenderSeries.values series)) in
  let strokeWidth :=
    (if ScatterRenderSeries.isHover series then 3
     else if isSubtleForeground this then 0.8 else 2)
    + ScatterRenderValue.size lastValue * 0.05 in
  if (length (ScatterRenderSeries.values series) =? 1)%nat then
    let v := ScatterRenderSeries.values series !!! 0%nat in
    if ScatterRenderSeries.isFocus series then
      El "g" [("key", AStr (ScatterRenderSeries.displayKey series))]
        [El "circle"
           [("cx", ANum (Vector2.x (ScatterRenderValue.position v)));
            ("cy", ANum (Vector2.y (ScatterRenderValue.position v)));
            ("fill", AStr "none");
            ("stroke", AStr (ScatterRenderSeries.color series));
            ("r", ANum (ScatterRenderSeries.size series + 2))] [];
         El "circle"
           [("cx", ANum (Vector2.x (ScatterRenderValue.position v)));
            ("cy", ANum (Vector2.y (ScatterRenderValue.position v)));
            ("fill", AStr (ScatterRenderSeries.color series));
            ("r", ANum (ScatterRenderSeries.size series))] []]
    else
      El "circle"
        [("key", AStr (ScatterRenderSeries.displayKey series));
         ("cx", ANum (Vector2.x (ScatterRenderValue.position v)));
         ("cy", ANum (Vector2.y (ScatterRenderValue.position v)));
         ("fill", AStr (ScatterRenderSeries.color series));
         ("r", ANum (ScatterRenderSeries.size series))] []
  else
    let firstValue := ScatterRenderSeries.values series !!! 0%nat in
    El "g"
      [("key", AStr (ScatterRenderSeries.displayKey series));
       ("className", AStr (ScatterRenderSeries.displayKey series))]
      [El "defs" []
         [El "marker"
            [("id", AStr (ScatterRenderSeries.displayKey series +:+ "-arrow"));
             ("fill", AStr (ScatterRenderSeries.color series));
             ("viewBox", AStr "0 -5 10 10");
             ("refX", ANum 5); ("refY", ANum 0);
             ("markerWidth", ANum 4); ("markerHeight", ANum 4);
             ("orient", AStr "auto")]
            [El "path" [("d", AStr "M0,-5L10,0L0,5")] []];
          El "marker"
            [("id", AStr (ScatterRenderSeries.displayKey series +:+ "-circle"));
             ("viewBox", AStr "0 0 12 12");
             ("refX", ANum 4); ("refY", ANum 4);
             ("orient", AStr "auto");
             ("fill", AStr (ScatterRenderSeries.color series))]
            [El "circle" [("cx", ANum 4); ("cy", ANum 4); ("r", ANum 4)] []]];
       (if ScatterRenderSeries.isFocus series then
          El "circle"
            [("cx", ANum (Vector2.x (ScatterRenderValue.position firstValue)));
             ("cy", ANum (Vector2.y (ScatterRenderValue.position firstValue)));
             ("r", ANum (strokeWidth + 1));
             ("fill", AStr "none");
             ("stroke", AStr (ScatterRenderSeries.color series));
             ("opacity", ANum 0.6)] []
        else Nothing);
       El "polyline"
         [("strokeLinecap", AStr "round");
          ("stroke", AStr (ScatterRenderSeries.color series));
          ("points", AStr (polylinePoints series));
          ("fill", AStr "none");
          ("strokeWidth", ANum strokeWidth);
          ("opacity", ANum (if isSubtleForeground this then 0.6 else 1));
          ("markerStart",
           AStr ("url(#" +:+ ScatterRenderSeries.displayKey series
                 +:+ "-circle)"));
          ("markerMid",
           AStr ("url(#" +:+ ScatterRenderSeries.displayKey series
                 +:+ "-circle)"));
          ("markerEnd",
           AStr ("url(#" +:+ ScatterRenderSeries.displayKey series
                 +:+ "-arrow)"))] []].

Definition renderForegroundLines (rd : RenderData) : list Element :=
  renderForegroundLine <$> foregroundGroups rd.

Definition renderForegroundLabels (rd : RenderData) : list Element :=
  (fun series =>
     Arr (imap (fun i l =>
                  if ScatterLabel.isHidden l then Nothing
                  else
                    El "text"
                      [("key",
                        AStr (ScatterRenderSeries.displayKey series
                              +:+ "-label-" +:+ pretty i));
                       ("x", ANum (Bounds.x (ScatterLabel.bounds l)));
                       ("y", ANum (Bounds.y (ScatterLabel.bounds l)
                                   + Bounds.height (ScatterLabel.bounds l)));
                       ("fontSize", ANum (ScatterLabel.fontSize l));
                       ("fontFamily", AStr labelFontFamily);
                       ("fill", AStr "#333")]
                      [Txt (ScatterLabel.text l)])
            (labelsOf rd series)))
  <$> foregroundGroups rd.

(** [render]; [None] when [renderData] throws. *)
Definition render : option Element :=
  rd ← renderData E this;
  let clipBounds := pad D (bounds this) (-10) in
  if decide (rd_series rd = []) then
    Some (El "NoData" [("bounds", ABounds (bounds this))] [])
  else
    Some
      (El "g"
         [("className", AStr "PointsWithLabels clickable");
          ("clipPath", AStr "url(#scatterBounds)");
          ("onMouseMove", AHandler "onMouseMove");
          ("onMouseLeave", AHandler "onMouseLeave");
          ("onClick", AHandler "onClick")]
         [El "rect"
            [("key", AStr "background");
             ("x", ANum (Bounds.x (bounds this)));
             ("y", ANum (Bounds.y (bounds this)));
             ("width", ANum (Bounds.width (bounds this)));
             ("height", ANum (Bounds.height (bounds this)));
             ("fill", AStr "rgba(255,255,255,0)")] [];
          El "defs" []
            [El "clipPath" [("id", AStr "scatterBounds")]
               [El "rect"
                  [("x", ANum (Bounds.x clipBounds));
                   ("y", ANum (Bounds.y clipBounds));
                   ("width", ANum (Bounds.width clipBounds));
                   ("height", ANum (Bounds.height clipBounds))] []]];
          Arr (renderBackgroundLines rd);
          Arr (renderBackgroundLabels rd);
          Arr (renderForegroundLines rd);
          Arr (renderForegroundLabels rd)]).

End Presentation.

(** The [text] elements that are drawn for an element, in drawing order:
    arrays are flattened, [null] and [false] draw nothing. *)
Fixpoint textElements (e : Element) : list Element :=
  match e with
  | El tag attrs children =>
      (if String.eqb tag "text" then [e] else [])
      ++ concat (map textElements children)
  | Arr items => concat (map textElements items)
  | Txt _ => []
  | Nothing => []
  end.

Definition attrNum (name : string) (attrs : list (string * Attr)) : option Q :=
  match find (fun a => String.eqb (fst a) name) attrs with
  | Some (_, ANum q) => Some q
  | _ => None
  end.

(** What a [text] element shows: its text, its place and its font size. *)
Definition shownText (e : Element) : option (string * Q * Q * Q) :=
  match e with
  | El _ attrs [Txt s] =>
      x ← attrNum "x" attrs;
      y ← attrNum "y" attrs;
      fontSize ← attrNum "fontSize" attrs;
      Some (s, x, y, fontSize)
  | _ => None
  end.

(** What is shown for a label when it is drawn. *)
Definition shownLabel (l : ScatterLabel.t) : string * Q * Q * Q :=
  (ScatterLabel.text l, Bounds.x (ScatterLabel.bounds l),
   Bounds.y (ScatterLabel.bounds l) + Bounds.height (ScatterLabel.bounds l),
   ScatterLabel.fontSize l).

Definition sampleDrawing : DrawingExternals :=
  {| angle := fun a b => 0;
     pad := fun b amount =>
       Bounds.mk (Bounds.x b + amount) (Bounds.y b + amount)
         (Bounds.width b - amount * 2) (Bounds.height b - amount * 2) |}.

(** The first series of the sample render data with its last value
    moved. *)
Definition sampleFirstSeriesMoved : ScatterRenderSeries.t :=
  ScatterRenderSeries.mk
    (ScatterRenderSeries.key sampleFirstSeries)
    (ScatterRenderSeries.displayKey sampleFirstSeries)
    (ScatterRenderSeries.color sampleFirstSeries)
    (ScatterRenderSeries.size sampleFirstSeries)
    (take 2 (ScatterRenderSeries.values sampleFirstSeries)
     ++ [ScatterRenderValue.mk (Vector2.mk 90 90) 3 11 (Build_ValueTime 2005 2005)])
    (ScatterRenderSeries.text sampleFirstSeries)
    (ScatterRenderSeries.isHover sampleFirstSeries)
    (ScatterRenderSeries.isFocus sampleFirstSeries)
    (ScatterRenderSeries.isForeground sampleFirstSeries)
    (ScatterRenderSeries.offsetVector sampleFirstSeries)
    None [] None [].

(** The [key] prop of an element; [null] and [false] have none. *)
Definition keyOf (e : Element) : option string :=
  match e with
  | El _ attrs _ =>
      match find (fun a => String.eqb (fst a) "key") attrs with
      | Some (_, AStr k) => Some k
      | _ => None
      end
  | _ => None
  end.

(** What is drawn for the crowded sample chart. *)
Definition crowdedDrawing : Element :=
  default Nothing (render sampleExternals sampleDrawing (mount crowdedProps)).

(** The labels drawn for the foreground series of the sample chart. *)
Definition sampleForegroundLabels : Element :=
  default Nothing (renderForegroundLabels sampleRenderData !! 0%nat).

(** * Properties *)

(** ** The model on small inputs *)

Example sortBy_is_stable :
  sortBy (fun p : Q * string => fst p)
    [(2, "a"); (1, "b"); (2, "c"); (1, "d")]
  = [(1, "b"); (1, "d"); (2, "a"); (2, "c")].
Proof. reflexivity. Qed.

Example scaleLinear_midpoint : scaleLinear (10, 13) (0, 10) 5 == 11.5.
Proof. vm_compute. reflexivity. Qed.

Example scaleLinear_degenerate : scaleLinear (10, 13) (4, 4) 7 == 10.
Proof. vm_compute. reflexivity. Qed.

Example orNumber_zero : orNumber (Some 0) 1 = 1.
Proof. reflexivity. Qed.

(** A label that overhangs the left edge is translated by its width. *)
Example clampPass_nearLeft :
  Bounds.x (ScatterLabel.bounds (clampPass plot100 [0%nat] nearLeft !!! 0%nat))
  == 2.
Proof. vm_compute. reflexivity. Qed.

(** Three labels on one box: the one of highest priority stays. *)
Example collisionPass_stacked :
  ScatterLabel.isHidden
    <$> collisionPass [plainSeries "s"] [0%nat; 1%nat; 2%nat] stacked
  = [false; true; true].
Proof. vm_compute. reflexivity. Qed.

(** The sample: the series in focus has a start, a mid and an end label,
    the series with a single value has its end label only. *)
Example sample_labels :
  ScatterRenderSeries.allLabels <$> rd_series sampleRenderData
  = [[0; 1; 2]; [3]]%nat
  /\ ScatterLabel.text <$> rd_labels sampleRenderData
     = ["2000"; "2001"; "Alpha"; "Beta"].
Proof. split; vm_compute; reflexivity. Qed.

Example sample_isConnected : isConnected (mount sampleProps) = true.
Proof. reflexivity. Qed.

Example crowded_isConnected : isConnected (mount crowdedProps) = false.
Proof. reflexivity. Qed.

(** ** Rational comparisons *)


Lemma Qltb_ge (a b : Q) : Qltb a b = false <-> b <= a.
Proof.
  unfold Qltb. rewrite negb_false_iff. apply Qle_bool_iff.
Qed.

(** ** The stable sort *)

Section SortByFacts.
Context {A K : Type} (leb : K -> K -> bool) (f : A -> K).
Hypothesis leb_total : forall a b, leb a b = true \/ leb b a = true.
Hypothesis leb_trans :
  forall a b c, leb a b = true -> leb b c = true -> leb a c = true.

Lemma insertBy_Permutation (a : A) (l : list A) :
  insertBy leb f a l ≡ₚ a :: l.
Proof.
  induction l as [|b l IH]; simpl; [reflexivity |].
  destruct (leb (f a) (f b)); [reflexivity |].
  rewrite IH. apply Permutation_swap.
Qed.

Lemma sortByWith_Permutation (l : list A) : sortByWith leb f l ≡ₚ l.
Proof.
  induction l as [|a l IH]; simpl; [reflexivity |].
  rewrite insertBy_Permutation. by rewrite IH.
Qed.

Lemma elem_of_sortByWith (a : A) (l : list A) :
  a ∈ sortByWith leb f l <-> a ∈ l.
Proof. by rewrite sortByWith_Permutation. Qed.

Lemma length_sortByWith (l : list A) : length (sortByWith leb f l) = length l.
Proof. by rewrite sortByWith_Permutation. Qed.

Lemma insertBy_sorted (a : A) (l : list A) :
  StronglySorted (fun x y => leb (f x) (f y) = true) l ->
  StronglySorted (fun x y => leb (f x) (f y) = true) (insertBy leb f a l).
Proof.
  induction 1 as [|b l Hs IH Hb]; simpl.
  - repeat constructor.
  - destruct (leb (f a) (f b)) eqn:Hab.
    + constructor; [by constructor |].
      constructor; [exact Hab |].
      eapply Forall_impl; [exact Hb |]. simpl. intros c Hbc. eauto.
    + constructor; [exact IH |].
      rewrite insertBy_Permutation. constructor; [| exact Hb].
      destruct (leb_total (f a) (f b)); congruence.
Qed.

Lemma sortByWith_sorted (l : list A) :
  StronglySorted (fun x y => leb (f x) (f y) = true) (sortByWith leb f l).
Proof.
  induction l as [|a l IH]; simpl; [constructor | by apply insertBy_sorted].
Qed.

(** An element whose key is strictly below the key of another one comes
    before it in the sorted list. *)
Lemma sortByWith_before (l : list A) (a b : A) :
  a ∈ l -> b ∈ l -> leb (f b) (f a) = false ->
  exists l1 l2, sortByWith leb f l = l1 ++ a :: l2 /\ b ∈ l2.
Proof.
  intros Ha Hb Hlt.
  apply elem_of_sortByWith in Ha. apply elem_of_sortByWith in Hb.
  pose proof (sortByWith_sorted l) as Hs.
  destruct (list_elem_of_split _ _ Ha) as (l1 & l2 & Heq).
  exists l1, l2. split; [exact Heq |].
  rewrite Heq in Hb, Hs.
  apply elem_of_app in Hb as [Hb|Hb].
  - exfalso.
    assert (leb (f b) (f a) = true) as Hba; [| congruence].
    apply (StronglySorted_app_1_elem_of _ _ _ b a Hs Hb). left.
  - apply elem_of_cons in Hb as [->|Hb]; [| exact Hb].
    destruct (leb_total (f a) (f a)); congruence.
Qed.

End SortByFacts.

Lemma sortByWith_ext {A K : Type} (leb : K -> K -> bool) (f g : A -> K)
    (l : list A) :
  (forall a, f a = g a) -> sortByWith leb f l = sortByWith leb g l.
Proof.
  intros Hfg. induction l as [|a l IH]; simpl; [reflexivity |].
  rewrite IH. generalize (sortByWith leb g l). intros k.
  induction k as [|b k IHk]; simpl; [reflexivity |].
  by rewrite !Hfg, IHk.
Qed.

Lemma Qle_bool_total (a b : Q) : Qle_bool a b = true \/ Qle_bool b a = true.
Proof.
  rewrite !Qle_bool_iff. destruct (Qlt_le_dec a b); [left | right]; lra.
Qed.

Lemma Qle_bool_trans (a b c : Q) :
  Qle_bool a b = true -> Qle_bool b c = true -> Qle_bool a c = true.
Proof. rewrite !Qle_bool_iff. lra. Qed.

Lemma sortBy_Permutation {A : Type} (f : A -> Q) (l : list A) :
  sortBy f l ≡ₚ l.
Proof. apply sortByWith_Permutation. Qed.

Lemma sortBy_sorted {A : Type} (f : A -> Q) (l : list A) :
  StronglySorted (fun x y => f x <= f y) (sortBy f l).
Proof.
  pose proof (sortByWith_sorted Qle_bool f Qle_bool_total Qle_bool_trans l)
    as Hs.
  unfold sortBy. induction Hs as [|a k Hs IH Ha]; constructor; [exact IH |].
  eapply Forall_impl; [exact Ha |]. intros b. simpl. apply Qle_bool_iff.
Qed.

Lemma sortBy_before {A : Type} (f : A -> Q) (l : list A) (a b : A) :
  a ∈ l -> b ∈ l -> f a < f b ->
  exists l1 l2, sortBy f l = l1 ++ a :: l2 /\ b ∈ l2.
Proof.
  intros Ha Hb Hlt.
  apply (sortByWith_before Qle_bool f Qle_bool_total Qle_bool_trans); auto.
  destruct (Qle_bool (f b) (f a)) eqn:H; [| reflexivity].
  apply Qle_bool_iff in H. lra.
Qed.

(** ** The label store *)

Section StoreFacts.
Context (R : relation ScatterLabel.t) `{!Reflexive R, !Transitive R}.

Lemma related_refl (store : list ScatterLabel.t) : Forall2 R store store.
Proof. reflexivity. Qed.

Lemma alter_related (f : ScatterLabel.t -> ScatterLabel.t) (i : nat)
    (store : list ScatterLabel.t) :
  (forall l, R l (f l)) -> Forall2 R store (alter f i store).
Proof.
  intros Hf. revert i. induction store as [|l store IH]; intros i.
  - constructor.
  - destruct i as [|i]; simpl.
    + constructor; [apply Hf | apply related_refl].
    + constructor; [reflexivity | apply IH].
Qed.

Lemma related_trans (s1 s2 s3 : list ScatterLabel.t) :
  Forall2 R s1 s2 -> Forall2 R s2 s3 -> Forall2 R s1 s3.
Proof. intros H1 H2. by etransitivity. Qed.

Lemma related_lookup_total (s1 s2 : list ScatterLabel.t) (k : nat) :
  Forall2 R s1 s2 -> R (s1 !!! k) (s2 !!! k).
Proof.
  intros H. rewrite !list_lookup_total_alt.
  pose proof (proj1 (Forall2_lookup R s1 s2) H k) as Hk.
  destruct Hk; simpl; [assumption | reflexivity].
Qed.

End StoreFacts.

Global Instance hiddenOnly_refl : Reflexive hiddenOnly.
Proof. intros [ ]; split; auto. Qed.

Global Instance hiddenOnly_trans : Transitive hiddenOnly.
Proof.
  intros [ ] [ ] [ ] [H1 M1] [H2 M2].
  unfold ScatterLabel.setHidden in *; simpl in *.
  injection H1 as -> -> -> -> -> -> -> ->.
  injection H2 as -> -> -> -> -> -> -> ->.
  split; [reflexivity | auto].
Qed.

Global Instance movedOnly_refl : Reflexive movedOnly.
Proof. intros [ ]; repeat split; auto. Qed.

Global Instance movedOnly_trans : Transitive movedOnly.
Proof.
  intros [ ] [ ] [ ] (H1 & W1 & T1) (H2 & W2 & T2).
  unfold ScatterLabel.setBounds in *; simpl in *.
  injection H1 as -> -> -> -> -> -> -> ->.
  injection H2 as -> -> -> -> -> -> -> ->.
  repeat split; simpl; congruence.
Qed.

Lemma hiddenOnly_bounds (l l' : ScatterLabel.t) :
  hiddenOnly l l' -> ScatterLabel.bounds l' = ScatterLabel.bounds l.
Proof. intros [-> _]. reflexivity. Qed.

Lemma hiddenOnly_priority (rd : list ScatterRenderSeries.t)
    (l l' : ScatterLabel.t) :
  hiddenOnly l l' -> labelPriority rd l' = labelPriority rd l.
Proof. intros [-> _]. reflexivity. Qed.

Lemma movedOnly_priority (rd : list ScatterRenderSeries.t)
    (l l' : ScatterLabel.t) :
  movedOnly l l' -> labelPriority rd l' = labelPriority rd l.
Proof. intros [-> _]. reflexivity. Qed.

Lemma hide_hiddenOnly (l : ScatterLabel.t) :
  hiddenOnly l (ScatterLabel.setHidden l true).
Proof. destruct l; split; auto. Qed.

Lemma hide_lookup (j : nat) (store : list ScatterLabel.t) :
  (j < length store)%nat ->
  ScatterLabel.isHidden (hide j store !!! j) = true.
Proof.
  intros Hj. unfold hide. by rewrite list_lookup_total_alter_eq.
Qed.

(** *** The clamp *)

Lemma clampLabel_movedOnly (b : Bounds.t) (l : ScatterLabel.t) :
  movedOnly l (clampLabel b l).
Proof.
  destruct l as [t fs p [x y w h] s hid st mi en].
  unfold clampLabel, movedOnly. simpl.
  repeat (match goal with |- context [if ?c then _ else _] => destruct c end;
          simpl); repeat split.
Qed.

Lemma clampPass_movedOnly (b : Bounds.t) (ids : list nat)
    (store : list ScatterLabel.t) :
  Forall2 movedOnly store (clampPass b ids store).
Proof.
  unfold clampPass. revert store.
  induction ids as [|i ids IH]; intros store; simpl.
  - apply (related_refl movedOnly).
  - eapply (related_trans movedOnly); [| apply IH].
    apply (alter_related movedOnly). apply clampLabel_movedOnly.
Qed.

(** *** The collision loops *)

Lemma collideWith_hiddenOnly (l1 : nat) (later : list nat)
    (store : list ScatterLabel.t) :
  Forall2 hiddenOnly store (collideWith l1 later store).
Proof.
  revert store. induction later as [|l2 later IH]; intros store; simpl.
  - apply (related_refl hiddenOnly).
  - repeat case_match; try apply IH.
    eapply (related_trans hiddenOnly); [| apply IH].
    apply (alter_related hiddenOnly). apply hide_hiddenOnly.
Qed.

Lemma collide_hiddenOnly (labels : list nat) (store : list ScatterLabel.t) :
  Forall2 hiddenOnly store (collide labels store).
Proof.
  revert store. induction labels as [|l1 later IH]; intros store; simpl.
  - apply (related_refl hiddenOnly).
  - case_match; [apply IH |].
    eapply (related_trans hiddenOnly); [| apply IH].
    apply collideWith_hiddenOnly.
Qed.

Lemma hiddenOnly_stays (s1 s2 : list ScatterLabel.t) (k : nat) :
  Forall2 hiddenOnly s1 s2 ->
  ScatterLabel.isHidden (s1 !!! k) = true ->
  ScatterLabel.isHidden (s2 !!! k) = true.
Proof.
  intros H. apply (related_lookup_total hiddenOnly _ _ k) in H. apply H.
Qed.

Lemma hiddenOnly_same_bounds (s1 s2 : list ScatterLabel.t) (k : nat) :
  Forall2 hiddenOnly s1 s2 ->
  ScatterLabel.bounds (s2 !!! k) = ScatterLabel.bounds (s1 !!! k).
Proof.
  intros H. apply hiddenOnly_bounds.
  by apply (related_lookup_total hiddenOnly).
Qed.

(** The inner loop touches the later labels only. *)
Lemma collideWith_other (l1 : nat) (later : list nat)
    (store : list ScatterLabel.t) (k : nat) :
  k ∉ later -> collideWith l1 later store !!! k = store !!! k.
Proof.
  revert store. induction later as [|l2 later IH]; intros store Hk; simpl.
  - reflexivity.
  - apply not_elem_of_cons in Hk as [Hne Hk].
    repeat case_match; rewrite IH by assumption; try reflexivity.
    unfold hide. by rewrite list_lookup_total_alter_ne.
Qed.

Lemma collide_other (labels : list nat) (store : list ScatterLabel.t)
    (k : nat) :
  k ∉ labels -> collide labels store !!! k = store !!! k.
Proof.
  revert store. induction labels as [|l1 later IH]; intros store Hk; simpl.
  - reflexivity.
  - apply not_elem_of_cons in Hk as [Hne Hk].
    case_match; rewrite IH by assumption; [reflexivity |].
    by apply collideWith_other.
Qed.

(** After the inner loop every later label that intersects [l1] is
    hidden. *)
Lemma collideWith_hides (l1 : nat) (later : list nat)
    (store : list ScatterLabel.t) (j : nat) :
  j ∈ later -> (j < length store)%nat ->
  Bounds.intersects (ScatterLabel.bounds (store !!! l1))
    (ScatterLabel.bounds (store !!! j)) = true ->
  ScatterLabel.isHidden (collideWith l1 later store !!! j) = true.
Proof.
  revert store. induction later as [|l2 later IH]; intros store Hj Hlen Hint.
  - by apply elem_of_nil in Hj.
  - simpl. destruct (decide (j = l2)) as [->|Hne].
    + destruct (ScatterLabel.isHidden (store !!! l2)) eqn:Hhid.
      * eapply hiddenOnly_stays; [apply collideWith_hiddenOnly | exact Hhid].
      * rewrite Hint.
        eapply hiddenOnly_stays; [apply collideWith_hiddenOnly |].
        by apply hide_lookup.
    + apply elem_of_cons in Hj as [?|Hj]; [done |].
      repeat case_match; try (by apply IH).
      assert (Forall2 hiddenOnly store (hide l2 store)) as Hfr
        by (apply (alter_related hiddenOnly); apply hide_hiddenOnly).
      apply IH; [assumption | |].
      * by rewrite <- (Forall2_length _ _ _ Hfr).
      * by rewrite !(hiddenOnly_same_bounds _ _ _ Hfr).
Qed.

(** After the outer loop a label that is still visible has hidden every
    label after it that it intersects. *)
Lemma collide_hides (before later : list nat) (i j : nat)
    (store : list ScatterLabel.t) :
  j ∈ later -> (j < length store)%nat ->
  Bounds.intersects (ScatterLabel.bounds (store !!! i))
    (ScatterLabel.bounds (store !!! j)) = true ->
  ScatterLabel.isHidden (collide (before ++ i :: later) store !!! i) = false ->
  ScatterLabel.isHidden (collide (before ++ i :: later) store !!! j) = true.
Proof.
  revert store.
  induction before as [|x before IH]; intros store Hj Hlen Hint Hvis; simpl in *.
  - destruct (ScatterLabel.isHidden (store !!! i)) eqn:Hhid.
    + exfalso.
      pose proof (hiddenOnly_stays _ _ i (collide_hiddenOnly later store) Hhid).
      congruence.
    + eapply hiddenOnly_stays; [apply collide_hiddenOnly |].
      by apply collideWith_hides.
  - destruct (ScatterLabel.isHidden (store !!! x)); [by apply IH |].
    pose proof (collideWith_hiddenOnly x (before ++ i :: later) store) as Hfr.
    apply IH; [assumption | | | assumption].
    + by rewrite <- (Forall2_length _ _ _ Hfr).
    + by rewrite !(hiddenOnly_same_bounds _ _ _ Hfr).
Qed.

(** The first label of the order stays visible when it occurs once. *)
Lemma collide_first (l1 : nat) (later : list nat)
    (store : list ScatterLabel.t) :
  l1 ∉ later ->
  ScatterLabel.isHidden (store !!! l1) = false ->
  ScatterLabel.isHidden (collide (l1 :: later) store !!! l1) = false.
Proof.
  intros Hnot Hvis. simpl. rewrite Hvis.
  rewrite collide_other by assumption.
  by rewrite collideWith_other.
Qed.

(** ** The collision resolver: what it writes *)

Lemma movedOnly_written (l l' : ScatterLabel.t) :
  movedOnly l l' -> onlyPlaceAndIsHiddenWritten l l'.
Proof.
  intros (-> & W & H). destruct l; simpl in *.
  unfold onlyPlaceAndIsHiddenWritten; simpl. tauto.
Qed.

Lemma hiddenOnly_written (l l' : ScatterLabel.t) :
  hiddenOnly l l' -> onlyPlaceAndIsHiddenWritten l l'.
Proof.
  intros (-> & _). destruct l; simpl in *.
  unfold onlyPlaceAndIsHiddenWritten; simpl. tauto.
Qed.

Global Instance onlyPlaceAndIsHiddenWritten_trans :
  Transitive onlyPlaceAndIsHiddenWritten.
Proof.
  intros l1 l2 l3 H1 H2. unfold onlyPlaceAndIsHiddenWritten in *.
  intuition congruence.
Qed.

(** What the two passes of the resolver write. *)
Lemma resolveLabels_frame (bounds : Bounds.t)
    (renderData : list ScatterRenderSeries.t) (allLabels : list nat)
    (store : list ScatterLabel.t) :
  Forall2 onlyPlaceAndIsHiddenWritten store
    (resolveLabels bounds renderData allLabels store)
  /\ Forall2 movedOnly store (clampPass bounds allLabels store)
  /\ Forall2 hiddenOnly (clampPass bounds allLabels store)
       (resolveLabels bounds renderData allLabels store).
Proof.
  pose proof (clampPass_movedOnly bounds allLabels store) as Hc.
  pose proof (collide_hiddenOnly
                (labelsByPriority renderData allLabels
                   (clampPass bounds allLabels store))
                (clampPass bounds allLabels store)) as Hh.
  split; [| split; assumption].
  unfold resolveLabels, collisionPass. etransitivity.
  - eapply Forall2_impl; [exact Hc | apply movedOnly_written].
  - eapply Forall2_impl; [exact Hh | apply hiddenOnly_written].
Qed.

(** C4, as the code has it: the resolver leaves the text, the font size,
    the anchor, the owning series, the kind and the width and height of
    the box of every label as they were; the clamp writes the place of the
    box only, and the collision detection after it writes [isHidden]
    only, which it sets and never clears. *)
Theorem resolveLabels_writes (bounds : Bounds.t)
    (renderData : list ScatterRenderSeries.t) (allLabels : list nat)
    (store : list ScatterLabel.t) :
  Forall2 onlyPlaceAndIsHiddenWritten store
    (resolveLabels bounds renderData allLabels store)
  /\ Forall2 movedOnly store (clampPass bounds allLabels store)
  /\ Forall2 hiddenOnly (clampPass bounds allLabels store)
       (resolveLabels bounds renderData allLabels store).
Proof.
  pose proof (clampPass_movedOnly bounds allLabels store) as Hclamp.
  pose proof (collide_hiddenOnly
                (labelsByPriority renderData allLabels
                   (clampPass bounds allLabels store))
                (clampPass bounds allLabels store)) as Hcollide.
  split; [| split; [exact Hclamp | exact Hcollide]].
  unfold resolveLabels, collisionPass.
  transitivity (clampPass bounds allLabels store).
  - eapply Forall2_impl; [exact Hclamp | apply movedOnly_written].
  - eapply Forall2_impl; [exact Hcollide | apply hiddenOnly_written].
Qed.

(** C4 as stated fails: the clamp moves the box of a label that lies left
    of the plot. *)
Lemma resolveLabels_moves_box :
  ~ Forall2 onlyIsHiddenWritten farLeft
      (resolveLabels plot100 [plainSeries "far"] [0%nat] farLeft).
Proof.
  intros H. apply Forall2_cons_1 in H as [(_ & _ & _ & (Hx & _) & _) _].
  vm_compute in Hx. discriminate.
Qed.

(** ** The clamp: applying it again *)

Lemma clampLabel_fits (bounds : Bounds.t) (l : ScatterLabel.t) :
  fits bounds (ScatterLabel.bounds l) -> clampLabel bounds l = l.
Proof.
  intros (Hl & Hr & Ht & Hb). unfold clampLabel.
  apply Qltb_ge in Hl, Hr, Ht, Hb. by rewrite Hl, Hr, Ht, Hb.
Qed.




(** ** The label synthesizer: the store it builds *)

Section Synthesizer.
Context (E : Externals) (this : PointsWithLabels).

Lemma labelSeries_inv (k : nat) (s s' : ScatterRenderSeries.t)
    (store store' : list ScatterLabel.t) :
  labelSeries E this k s store = Some (s', store') ->
  exists lend off,
    makeEndLabel E this k s = Some (lend, off)
    /\ store' = store ++ option_list (makeStartLabel E this k s)
                  ++ makeMidLabels E this k s ++ [lend]
    /\ s' =
       {| ScatterRenderSeries.key := ScatterRenderSeries.key s;
          ScatterRenderSeries.displayKey := ScatterRenderSeries.displayKey s;
          ScatterRenderSeries.color := ScatterRenderSeries.color s;
          ScatterRenderSeries.size := ScatterRenderSeries.size s;
          ScatterRenderSeries.values := ScatterRenderSeries.values s;
          ScatterRenderSeries.text := ScatterRenderSeries.text s;
          ScatterRenderSeries.isHover := ScatterRenderSeries.isHover s;
          ScatterRenderSeries.isFocus := ScatterRenderSeries.isFocus s;
          ScatterRenderSeries.isForeground := ScatterRenderSeries.isForeground s;
          ScatterRenderSeries.offsetVector := off;
          ScatterRenderSeries.startLabel :=
            (fun _ => length store) <$> makeStartLabel E this k s;
          ScatterRenderSeries.midLabels :=
            seq (length (store ++ option_list (makeStartLabel E this k s)))
              (length (makeMidLabels E this k s));
          ScatterRenderSeries.endLabel :=
            Some (length ((store ++ option_list (makeStartLabel E this k s))
                          ++ makeMidLabels E this k s));
          ScatterRenderSeries.allLabels :=
            option_list ((fun _ => length store) <$> makeStartLabel E this k s)
            ++ seq (length (store ++ option_list (makeStartLabel E this k s)))
                 (length (makeMidLabels E this k s))
            ++ [length ((store ++ option_list (makeStartLabel E this k s))
                        ++ makeMidLabels E this k s)] |}.
Proof.
  unfold labelSeries. intros H.
  destruct (makeEndLabel E this k s) as [[lend off]|]; [| discriminate].
  simpl in H. injection H as <- <-. exists lend, off.
  split; [reflexivity |]. split; [| reflexivity].
  by rewrite <- !app_assoc.
Qed.

Lemma makeStartLabel_visible (k : nat) (s : ScatterRenderSeries.t)
    (l : ScatterLabel.t) :
  makeStartLabel E this k s = Some l ->
  ScatterLabel.isHidden l = false /\ ScatterLabel.isEnd l = false.
Proof.
  unfold makeStartLabel. case_match; [discriminate |].
  intros [= <-]. split; reflexivity.
Qed.

Lemma makeMidLabels_visible (k : nat) (s : ScatterRenderSeries.t) :
  Forall (fun l => ScatterLabel.isHidden l = false
                   /\ ScatterLabel.isEnd l = false)
    (makeMidLabels E this k s).
Proof.
  unfold makeMidLabels. case_match; [constructor |].
  apply Forall_forall. intros l Hl.
  apply elem_of_lookup_imap in Hl as (i & v & -> & _). split; reflexivity.
Qed.

Lemma makeEndLabel_visible (k : nat) (s : ScatterRenderSeries.t)
    (l : ScatterLabel.t) (off : Vector2.t) :
  makeEndLabel E this k s = Some (l, off) ->
  ScatterLabel.isHidden l = false /\ ScatterLabel.isEnd l = true.
Proof.
  unfold makeEndLabel.
  destruct (last (ScatterRenderSeries.values s)); [| discriminate].
  simpl. intros [= <- _]. split; reflexivity.
Qed.

(** The labels of a series are created at the end of the store, visible,
    and the series lists them in the order of their creation. *)
Lemma labelSeries_store (k : nat) (s s' : ScatterRenderSeries.t)
    (store store' : list ScatterLabel.t) :
  labelSeries E this k s store = Some (s', store') ->
  exists new,
    store' = store ++ new
    /\ ScatterRenderSeries.allLabels s' = seq (length store) (length new)
    /\ Forall (fun l => ScatterLabel.isHidden l = false) new.
Proof.
  intros H. apply labelSeries_inv in H as (lend & off & He & -> & ->).
  eexists. split; [reflexivity |]. simpl. split.
  - rewrite !length_app. simpl.
    destruct (makeStartLabel E this k s); simpl.
    + replace (length store + 1)%nat with (S (length store)) by lia.
      f_equal. rewrite seq_app. reflexivity.
    + rewrite Nat.add_0_r, seq_app. reflexivity.
  - rewrite !Forall_app. split; [| split].
    + destruct (makeStartLabel E this k s) eqn:Hs; simpl; [| constructor].
      repeat constructor. by apply makeStartLabel_visible in Hs as [? _].
    + eapply Forall_impl; [apply makeMidLabels_visible |]. by intros l [? _].
    + repeat constructor. by apply makeEndLabel_visible in He as [? _].
Qed.

Lemma labelEach_store (k : nat) (rd rd' : list ScatterRenderSeries.t)
    (store store' : list ScatterLabel.t) :
  labelEach E this k rd store = Some (rd', store') ->
  exists new,
    store' = store ++ new
    /\ concat (ScatterRenderSeries.allLabels <$> rd')
       = seq (length store) (length new)
    /\ Forall (fun l => ScatterLabel.isHidden l = false) new.
Proof.
  revert k rd' store store'.
  induction rd as [|s rd IH]; intros k rd' store store' H; simpl in H.
  - injection H as <- <-. exists []. by rewrite app_nil_r.
  - destruct (labelSeries E this k s store) as [[s1 store1]|] eqn:Hs;
      [| discriminate].
    simpl in H.
    destruct (labelEach E this (S k) rd store1) as [[rd1 store2]|] eqn:Hr;
      [| discriminate].
    simpl in H. injection H as <- <-.
    apply labelSeries_store in Hs as (new1 & -> & Hall & Hvis1).
    apply IH in Hr as (new2 & -> & Hcat & Hvis2).
    exists (new1 ++ new2). split; [by rewrite app_assoc |]. split.
    + rewrite fmap_cons. cbn [concat].
      rewrite Hall, Hcat, !length_app, seq_app. reflexivity.
    + by apply Forall_app.
Qed.

(** Every series of the result is the labelled form of the series at the
    same position, and the labels created for it stay in the store. *)
Lemma labelEach_lookup (k : nat) (rd rd' : list ScatterRenderSeries.t)
    (store store' : list ScatterLabel.t) (i : nat)
    (s' : ScatterRenderSeries.t) :
  labelEach E this k rd store = Some (rd', store') ->
  rd' !! i = Some s' ->
  exists s st st',
    rd !! i = Some s
    /\ labelSeries E this (k + i) s st = Some (s', st')
    /\ st' `prefix_of` store'.
Proof.
  revert k rd' store store' i.
  induction rd as [|s rd IH]; intros k rd' store store' i H Hi; simpl in H.
  - injection H as <- <-. by rewrite lookup_nil in Hi.
  - destruct (labelSeries E this k s store) as [[s1 store1]|] eqn:Hs;
      [| discriminate].
    simpl in H.
    destruct (labelEach E this (S k) rd store1) as [[rd1 store2]|] eqn:Hr;
      [| discriminate].
    simpl in H. injection H as <- <-.
    destruct i as [|i]; simpl in Hi.
    + injection Hi as <-. exists s, store, store1.
      rewrite Nat.add_0_r. split; [reflexivity |]. split; [exact Hs |].
      apply labelEach_store in Hr as (new & -> & _). by apply prefix_app_r.
    + destruct (IH _ _ _ _ _ Hr Hi) as (s0 & st & st' & H1 & H2 & H3).
      exists s0, st, st'. split; [exact H1 |].
      split; [| exact H3]. by replace (k + S i)%nat with (S k + i)%nat by lia.
Qed.

Lemma labelEach_length (k : nat) (rd rd' : list ScatterRenderSeries.t)
    (store store' : list ScatterLabel.t) :
  labelEach E this k rd store = Some (rd', store') -> length rd' = length rd.
Proof.
  revert k rd' store store'.
  induction rd as [|s rd IH]; intros k rd' store store' H; simpl in H.
  - by injection H as <- <-.
  - destruct (labelSeries E this k s store) as [[s1 store1]|]; [| discriminate].
    simpl in H.
    destruct (labelEach E this (S k) rd store1) as [[rd1 store2]|] eqn:Hr;
      [| discriminate].
    simpl in H. injection H as <- <-. simpl. f_equal. eauto.
Qed.

End Synthesizer.

(** ** The render data *)

Section RenderDataFacts.
Context (E : Externals) (this : PointsWithLabels).

(** The flattened label list of the render data. *)
Lemma renderDataFrom_inv (ird : list ScatterRenderSeries.t) (rd : RenderData) :
  renderDataFrom E this ird = Some rd ->
  exists store,
    labelEach E this 0
      (markSeries this
         <$> sortBy (fun d => - ScatterRenderSeries.size d) ird) []
    = Some (rd_series rd, store)
    /\ concat (ScatterRenderSeries.allLabels <$> rd_series rd)
       = seq 0 (length store)
    /\ Forall (fun l => ScatterLabel.isHidden l = false) store
    /\ rd_labels rd
       = resolveLabels (bounds this) (rd_series rd) (seq 0 (length store)) store.
Proof.
  unfold renderDataFrom. intros H.
  destruct (labelEach E this 0 _ []) as [[series store]|] eqn:Hl;
    [| discriminate].
  simpl in H. injection H as <-. simpl.
  exists store. split; [reflexivity |].
  apply labelEach_store in Hl as (new & -> & Hcat & Hvis).
  simpl in *. rewrite Hcat. auto.
Qed.

Lemma renderData_inv (rd : RenderData) :
  renderData E this = Some rd ->
  exists ird,
    initialRenderData E this = Some ird /\ renderDataFrom E this ird = Some rd.
Proof.
  unfold renderData. intros H.
  destruct (initialRenderData E this) as [ird|]; [| discriminate].
  by exists ird.
Qed.

Lemma resolveLabels_length (b : Bounds.t) (rd : list ScatterRenderSeries.t)
    (ids : list nat) (store : list ScatterLabel.t) :
  length (resolveLabels b rd ids store) = length store.
Proof.
  destruct (resolveLabels_frame b rd ids store) as (H & _).
  symmetry. by eapply Forall2_length.
Qed.

(** The order the collision detection used is the priority order of the
    labels as they are in the end. *)
Lemma labelsByPriority_final (b : Bounds.t) (rd : list ScatterRenderSeries.t)
    (ids : list nat) (store : list ScatterLabel.t) :
  labelsByPriority rd ids (resolveLabels b rd ids store)
  = labelsByPriority rd ids (clampPass b ids store).
Proof.
  unfold labelsByPriority, sortBy. apply sortByWith_ext. intros k.
  f_equal. apply hiddenOnly_priority.
  apply (related_lookup_total hiddenOnly).
  apply resolveLabels_frame.
Qed.

Lemma clampPass_visible (b : Bounds.t) (ids : list nat)
    (store : list ScatterLabel.t) (k : nat) :
  ScatterLabel.isHidden (clampPass b ids store !!! k)
  = ScatterLabel.isHidden (store !!! k).
Proof.
  pose proof (related_lookup_total movedOnly _ _ k
                (clampPass_movedOnly b ids store)) as (-> & _).
  reflexivity.
Qed.

End RenderDataFacts.

(** ** The collision detection on the render data *)

(** C10: when the flattened label list of the render data is not empty,
    the first label of the descending priority order is not hidden, so at
    least one label is visible. *)
Theorem first_by_priority_visible (E : Externals) (this : PointsWithLabels)
    (rd : RenderData) :
  renderData E this = Some rd ->
  concat (ScatterRenderSeries.allLabels <$> rd_series rd) <> [] ->
  exists first l,
    head (labelsByPriority (rd_series rd)
            (concat (ScatterRenderSeries.allLabels <$> rd_series rd))
            (rd_labels rd)) = Some first
    /\ rd_labels rd !! first = Some l
    /\ ScatterLabel.isHidden l = false.
Proof.
  intros Hrd Hne.
  apply renderData_inv in Hrd as (ird & _ & Hrd).
  apply renderDataFrom_inv in Hrd as (store & _ & Hall & Hvis & Hlab).
  rewrite Hall in *. rewrite Hlab, labelsByPriority_final.
  set (clamped := clampPass (bounds this) (seq 0 (length store)) store).
  set (order := labelsByPriority (rd_series rd) (seq 0 (length store)) clamped).
  assert (order ≡ₚ seq 0 (length store)) as Hperm
    by apply sortBy_Permutation.
  destruct order as [|first later] eqn:Horder.
  { apply Permutation_nil_l in Hperm. congruence. }
  assert (first ∈ seq 0 (length store)) as Hin
    by (rewrite <- Hperm; left).
  apply elem_of_seq in Hin as [_ Hin]. simpl in Hin.
  assert (NoDup (first :: later)) as Hnd
    by (rewrite Hperm; apply NoDup_seq).
  apply NoDup_cons in Hnd as [Hnot _].
  exists first.
  assert (first < length (resolveLabels (bounds this) (rd_series rd)
                            (seq 0 (length store)) store))%nat as Hlt
    by (by rewrite resolveLabels_length).
  apply lookup_lt_is_Some in Hlt as [l Hl].
  exists l. split; [reflexivity |]. split; [exact Hl |].
  apply list_lookup_total_correct in Hl. rewrite <- Hl.
  unfold resolveLabels, collisionPass. fold clamped. fold order.
  rewrite Horder. apply collide_first; [exact Hnot |].
  unfold clamped. rewrite clampPass_visible.
  rewrite Forall_lookup in Hvis.
  destruct (lookup_lt_is_Some_2 store first Hin) as [l0 Hl0].
  rewrite (list_lookup_total_correct _ _ _ Hl0). eauto.
Qed.

(** The priority of a label is
    [fontSize + 10000·isHover + 1000·isFocus + 100·isEnd]. *)
Lemma labelPriority_formula (rd : list ScatterRenderSeries.t)
    (l : ScatterLabel.t) :
  labelPriority rd l
  == ScatterLabel.fontSize l
     + 10000 * boolQ (ScatterRenderSeries.isHover (rd !!! ScatterLabel.series l))
     + 1000 * boolQ (ScatterRenderSeries.isFocus (rd !!! ScatterLabel.series l))
     + 100 * boolQ (ScatterLabel.isEnd l).
Proof.
  unfold labelPriority.
  destruct (ScatterRenderSeries.isHover _), (ScatterRenderSeries.isFocus _),
    (ScatterLabel.isEnd l); simpl; lra.
Qed.




Lemma first_by_priority_visible_witness :
  renderData sampleExternals (mount crowdedProps) = Some crowdedRenderData
  /\ exists first l,
       head (labelsByPriority (rd_series crowdedRenderData)
               (concat (ScatterRenderSeries.allLabels
                          <$> rd_series crowdedRenderData))
               (rd_labels crowdedRenderData)) = Some first
       /\ rd_labels crowdedRenderData !! first = Some l
       /\ ScatterLabel.isHidden l = false.
Proof.
  assert (renderData sampleExternals (mount crowdedProps)
          = Some crowdedRenderData) as H by (vm_compute; reflexivity).
  split; [exact H |].
  apply (first_by_priority_visible sampleExternals (mount crowdedProps)
           crowdedRenderData H).
  vm_compute. discriminate.
Defined.

(** ** Where the series of the render data come from *)

Section Provenance.
Context (E : Externals) (this : PointsWithLabels).

Lemma initialRenderData_elem (ird : list ScatterRenderSeries.t)
    (s : ScatterRenderSeries.t) :
  initialRenderData E this = Some ird -> s ∈ ird ->
  exists d, d ∈ data this /\ initialRenderSeries E this d = Some s.
Proof.
  unfold initialRenderData. intros H Hs.
  destruct (mapM (initialRenderSeries E this) (data this)) as [l|] eqn:Hm;
    [| discriminate].
  simpl in H. injection H as <-.
  rewrite sortBy_Permutation in Hs.
  apply mapM_Some_1 in Hm.
  apply list_elem_of_lookup in Hs as [i Hi].
  destruct (Forall2_lookup_r _ _ _ _ _ Hm Hi) as (d & Hd & Hds).
  exists d. split; [| exact Hds].
  apply list_elem_of_lookup. by exists i.
Qed.

(** Every series of the render data is an input series, built by
    [initialRenderSeries], marked, and labelled; its labels are in the
    store that the resolver then works on. *)
Lemma renderData_series_inv (rd : RenderData) (i : nat)
    (s : ScatterRenderSeries.t) :
  renderData E this = Some rd -> rd_series rd !! i = Some s ->
  exists d s0 st st' store,
    d ∈ data this
    /\ initialRenderSeries E this d = Some s0
    /\ labelSeries E this i (markSeries this s0) st = Some (s, st')
    /\ st' `prefix_of` store
    /\ Forall2 onlyPlaceAndIsHiddenWritten store (rd_labels rd).
Proof.
  intros Hrd Hi.
  apply renderData_inv in Hrd as (ird & Hird & Hrd).
  apply renderDataFrom_inv in Hrd as (store & Hlab & _ & _ & Hres).
  destruct (labelEach_lookup _ _ _ _ _ _ _ _ _ Hlab Hi)
    as (s1 & st & st' & Hs1 & Hls & Hpre).
  apply list_lookup_fmap_Some in Hs1 as (s0 & -> & Hs0).
  assert (s0 ∈ ird) as Hin.
  { rewrite <- (sortBy_Permutation
                  (fun d => - ScatterRenderSeries.size d) ird).
    apply list_elem_of_lookup. by exists i. }
  destruct (initialRenderData_elem _ _ Hird Hin) as (d & Hd & Hds).
  exists d, s0, st, st', store. repeat split; try assumption.
  rewrite Hres. apply resolveLabels_frame.
Qed.

End Provenance.

(** ** The builder: sizes and font sizes *)

(** C9: in the render data the size of a series is the pixel size computed
    for its last value, plus one when the series is hovered (its key is
    among the hover keys). *)
Theorem series_size (E : Externals) (this : PointsWithLabels)
    (rd : RenderData) (i : nat) (s : ScatterRenderSeries.t) :
  renderData E this = Some rd ->
  rd_series rd !! i = Some s ->
  exists lastValue,
    last (ScatterRenderSeries.values s) = Some lastValue
    /\ ScatterRenderSeries.isHover s
       = includes (hoverKeys this) (ScatterRenderSeries.key s)
    /\ ScatterRenderSeries.size s
       = if ScatterRenderSeries.isHover s
         then ScatterRenderValue.size lastValue + 1
         else ScatterRenderValue.size lastValue.
Proof.
  intros Hrd Hi.
  destruct (renderData_series_inv _ _ _ _ _ Hrd Hi)
    as (d & s0 & st & st' & store & _ & Hd & Hls & _).
  apply labelSeries_inv in Hls as (lend & off & _ & _ & ->). simpl.
  unfold initialRenderSeries in Hd.
  destruct (last (map (initialRenderValue E this d) (ScatterSeries.values d)))
    as [lastValue|] eqn:Hlast; [| discriminate].
  simpl in Hd. injection Hd as <-. simpl.
  exists lastValue. repeat split. exact Hlast.
Qed.

Lemma series_size_witness :
  renderData sampleExternals (mount sampleProps) = Some sampleRenderData
  /\ rd_series sampleRenderData !! 0%nat = Some sampleFirstSeries
  /\ exists lastValue,
       last (ScatterRenderSeries.values sampleFirstSeries) = Some lastValue
       /\ ScatterRenderSeries.isHover sampleFirstSeries
          = includes (hoverKeys (mount sampleProps))
              (ScatterRenderSeries.key sampleFirstSeries)
       /\ ScatterRenderSeries.size sampleFirstSeries
          = if ScatterRenderSeries.isHover sampleFirstSeries
            then ScatterRenderValue.size lastValue + 1
            else ScatterRenderValue.size lastValue.
Proof.
  assert (renderData sampleExternals (mount sampleProps)
          = Some sampleRenderData) as H by (vm_compute; reflexivity).
  assert (rd_series sampleRenderData !! 0%nat = Some sampleFirstSeries) as H0
    by (vm_compute; reflexivity).
  split; [exact H |]. split; [exact H0 |].
  exact (series_size sampleExternals (mount sampleProps) sampleRenderData
           0%nat sampleFirstSeries H H0).
Defined.

(** C3, as the code has it: the values of a series of the render data are
    the render values of an input series, and the font size of every one
    of them is the linear scale with range [10, 13] over the size domain
    applied to the size of the series (1 when absent or zero), the same
    for all values of the series. *)
Theorem value_fontSize (E : Externals) (this : PointsWithLabels)
    (rd : RenderData) (i : nat) (s : ScatterRenderSeries.t) :
  renderData E this = Some rd ->
  rd_series rd !! i = Some s ->
  exists d,
    d ∈ data this
    /\ ScatterRenderSeries.key s = ScatterSeries.key d
    /\ ScatterRenderSeries.values s
       = initialRenderValue E this d <$> ScatterSeries.values d
    /\ forall v, v ∈ ScatterRenderSeries.values s ->
         ScatterRenderValue.fontSize v
         = scaleLinear (10, 13) (props_sizeDomain (props this))
             (orNumber (ScatterSeries.size d) 1).
Proof.
  intros Hrd Hi.
  destruct (renderData_series_inv _ _ _ _ _ Hrd Hi)
    as (d & s0 & st & st' & store & Hin & Hd & Hls & _).
  apply labelSeries_inv in Hls as (lend & off & _ & _ & ->). simpl.
  unfold initialRenderSeries in Hd.
  destruct (last (map (initialRenderValue E this d) (ScatterSeries.values d)))
    as [lastValue|]; [| discriminate].
  simpl in Hd. injection Hd as <-. simpl.
  exists d. repeat split; [exact Hin |].
  intros v Hv. apply list_elem_of_fmap in Hv as (v0 & -> & _). reflexivity.
Qed.

Lemma value_fontSize_witness :
  renderData sampleExternals (mount sampleProps) = Some sampleRenderData
  /\ rd_series sampleRenderData !! 0%nat = Some sampleFirstSeries
  /\ exists d,
       d ∈ data (mount sampleProps)
       /\ ScatterRenderSeries.key sampleFirstSeries = ScatterSeries.key d
       /\ ScatterRenderSeries.values sampleFirstSeries
          = initialRenderValue sampleExternals (mount sampleProps) d
              <$> ScatterSeries.values d
       /\ forall v, v ∈ ScatterRenderSeries.values sampleFirstSeries ->
            ScatterRenderValue.fontSize v
            = scaleLinear (10, 13) (0, 10) (orNumber (ScatterSeries.size d) 1).
Proof.
  assert (renderData sampleExternals (mount sampleProps)
          = Some sampleRenderData) as H by (vm_compute; reflexivity).
  assert (rd_series sampleRenderData !! 0%nat = Some sampleFirstSeries) as H0
    by (vm_compute; reflexivity).
  split; [exact H |]. split; [exact H0 |].
  exact (value_fontSize sampleExternals (mount sampleProps) sampleRenderData
           0%nat sampleFirstSeries H H0).
Defined.

(** C3 as stated fails: the first value of the sample series "a" has size
    2 and the series has size 4; the font size is the scale at 4. *)
Lemma fontSize_not_from_value :
  ~ fontSizeFromValue sampleExternals (mount sampleProps).
Proof.
  intros H.
  specialize (H (ScatterSeries.mk (Some "#f00") "a" "Alpha" (Some 4)
                   [sampleValue 10 10 (Some 2) 2000;
                    sampleValue 30 40 (Some 4) 2001;
                    sampleValue 60 50 (Some 8) 2002])
                (sampleValue 10 10 (Some 2) 2000)).
  assert (11.2 == 10.6) as Habs; [| vm_compute in Habs; discriminate].
  etransitivity; [| etransitivity; [apply H |]].
  - vm_compute. reflexivity.
  - left.
  - left.
  - vm_compute. reflexivity.
Qed.

(** ** The drawing order of the background series *)








(** ** The render data exist when every series has a value *)

Section Totality.
Context (E : Externals) (this : PointsWithLabels).

Lemma initialRenderSeries_is_Some (d : ScatterSeries.t) :
  ScatterSeries.values d <> [] -> is_Some (initialRenderSeries E this d).
Proof.
  intros Hne. unfold initialRenderSeries.
  destruct (last (map (initialRenderValue E this d) (ScatterSeries.values d)))
    as [v|] eqn:Hlast; [by eexists |].
  apply last_None in Hlast. apply map_eq_nil in Hlast. contradiction.
Qed.

Lemma initialRenderSeries_values (d : ScatterSeries.t)
    (s : ScatterRenderSeries.t) :
  initialRenderSeries E this d = Some s ->
  ScatterRenderSeries.values s <> []
  /\ ScatterRenderSeries.key s = ScatterSeries.key d
  /\ ScatterRenderSeries.text s = ScatterSeries.label d.
Proof.
  unfold initialRenderSeries.
  destruct (last (map (initialRenderValue E this d) (ScatterSeries.values d)))
    as [v|] eqn:Hlast; [| discriminate].
  simpl. intros [= <-]. simpl. repeat split.
  intros Hnil. rewrite Hnil in Hlast. discriminate.
Qed.

Lemma labelSeries_is_Some (k : nat) (s : ScatterRenderSeries.t)
    (store : list ScatterLabel.t) :
  ScatterRenderSeries.values s <> [] ->
  is_Some (labelSeries E this k s store).
Proof.
  intros Hne. unfold labelSeries, makeEndLabel.
  destruct (last (ScatterRenderSeries.values s)) as [v|] eqn:Hlast;
    [by eexists |].
  apply last_None in Hlast. contradiction.
Qed.

Lemma labelEach_is_Some (k : nat) (rd : list ScatterRenderSeries.t)
    (store : list ScatterLabel.t) :
  Forall (fun s => ScatterRenderSeries.values s <> []) rd ->
  is_Some (labelEach E this k rd store).
Proof.
  intros H. revert k store.
  induction H as [|s rd Hs Hrd IH]; intros k store; simpl; [by eexists |].
  destruct (labelSeries_is_Some k s store Hs) as [[s' store'] ->]. simpl.
  destruct (IH (S k) store') as [[rd' store''] ->]. simpl. by eexists.
Qed.

Lemma renderData_is_Some :
  Forall (fun d => ScatterSeries.values d <> []) (data this) ->
  is_Some (renderData E this).
Proof.
  intros Hdata. unfold renderData, initialRenderData.
  destruct (mapM (initialRenderSeries E this) (data this)) as [l|] eqn:Hm.
  - simpl. unfold renderDataFrom.
    match goal with
    | |- context [labelEach E this 0 ?m []] =>
        destruct (labelEach_is_Some 0 m []) as [[rd store] ->]
    end; [| simpl; by eexists].
    apply Forall_fmap, Forall_forall. intros s Hs. simpl.
    rewrite !sortBy_Permutation in Hs.
    apply mapM_Some_1 in Hm.
    apply list_elem_of_lookup in Hs as [i Hi].
    destruct (Forall2_lookup_r _ _ _ _ _ Hm Hi) as (d & _ & Hd).
    by apply initialRenderSeries_values in Hd as [? _].
  - apply mapM_None_1 in Hm. apply Exists_exists in Hm as (d & Hd & Hnone).
    rewrite Forall_forall in Hdata.
    destruct (initialRenderSeries_is_Some d (Hdata d Hd)) as [s Hs].
    congruence.
Qed.

(** The render data exist only when every series has a value. *)
Lemma renderData_Some_values (rd : RenderData) :
  renderData E this = Some rd ->
  Forall (fun d => ScatterSeries.values d <> []) (data this).
Proof.
  intros Hrd. apply renderData_inv in Hrd as (ird & Hird & _).
  unfold initialRenderData in Hird.
  destruct (mapM (initialRenderSeries E this) (data this)) as [l|] eqn:Hm;
    [| discriminate].
  apply mapM_Some_1 in Hm. apply Forall_forall. intros d Hd.
  apply list_elem_of_lookup in Hd as [i Hi].
  destruct (Forall2_lookup_l _ _ _ _ _ Hm Hi) as (s & _ & Hs).
  unfold initialRenderSeries in Hs. intros Hnil. rewrite Hnil in Hs.
  discriminate.
Qed.

(** The series of the render data are the input series, in another
    order. *)
Lemma renderData_keys (rd : RenderData) :
  renderData E this = Some rd ->
  (fun s => (ScatterRenderSeries.key s, ScatterRenderSeries.text s))
    <$> rd_series rd
  ≡ₚ (fun d => (ScatterSeries.key d, ScatterSeries.label d)) <$> data this.
Proof.
  intros Hrd.
  apply renderData_inv in Hrd as (ird & Hird & Hrd).
  apply renderDataFrom_inv in Hrd as (store & Hlab & _).
  unfold initialRenderData in Hird.
  destruct (mapM (initialRenderSeries E this) (data this)) as [l|] eqn:Hm;
    [| discriminate].
  simpl in Hird. injection Hird as <-.
  assert ((fun s => (ScatterRenderSeries.key s, ScatterRenderSeries.text s))
            <$> rd_series rd
          = (fun s => (ScatterRenderSeries.key s, ScatterRenderSeries.text s))
              <$> sortBy (fun d => - ScatterRenderSeries.size d)
                    (sortBy ScatterRenderSeries.size l)) as ->.
  { apply list_eq_same_length with (length (rd_series rd)).
    - rewrite length_fmap. apply labelEach_length in Hlab.
      by rewrite Hlab, length_fmap.
    - by rewrite length_fmap.
    - intros i x y Hi Hx Hy.
      apply list_lookup_fmap_Some in Hx as (s & -> & Hs).
      apply list_lookup_fmap_Some in Hy as (s0 & -> & Hs0).
      destruct (labelEach_lookup _ _ _ _ _ _ _ _ _ Hlab Hs)
        as (s1 & st & st' & Hs1 & Hls & _).
      apply list_lookup_fmap_Some in Hs1 as (s2 & -> & Hs2).
      assert (s2 = s0) as -> by congruence.
      by apply labelSeries_inv in Hls as (lend & off & _ & _ & ->). }
  rewrite !sortBy_Permutation.
  assert ((fun s => (ScatterRenderSeries.key s, ScatterRenderSeries.text s))
            <$> l
          = (fun d => (ScatterSeries.key d, ScatterSeries.label d))
              <$> data this) as ->; [| reflexivity].
  clear Hlab. apply mapM_Some_1 in Hm.
  induction Hm as [|d s ds ss Hd Hds IH]; [reflexivity |].
  rewrite !fmap_cons, IH.
  apply initialRenderSeries_values in Hd as (_ & -> & ->). reflexivity.
Qed.

Lemma renderData_series_key (rd : RenderData) (s : ScatterRenderSeries.t) :
  renderData E this = Some rd -> s ∈ rd_series rd ->
  ScatterRenderSeries.key s ∈ ScatterSeries.key <$> data this.
Proof.
  intros Hrd Hs.
  apply list_elem_of_lookup in Hs as [i Hi].
  destruct (renderData_series_inv _ _ _ _ _ Hrd Hi)
    as (d & s0 & st & st' & store & Hin & Hd & Hls & _).
  apply labelSeries_inv in Hls as (lend & off & _ & _ & ->). simpl.
  apply initialRenderSeries_values in Hd as (_ & -> & _).
  by apply list_elem_of_fmap_2.
Qed.

End Totality.

(** ** The labels of a series *)

Section SeriesLabels.
Context (E : Externals) (this : PointsWithLabels).

Lemma makeStartLabel_is_Some (k : nat) (s : ScatterRenderSeries.t) :
  is_Some (makeStartLabel E this k s)
  <-> ScatterRenderSeries.isForeground s = true
      /\ (2 <= length (ScatterRenderSeries.values s))%nat.
Proof.
  unfold makeStartLabel.
  destruct (ScatterRenderSeries.isForeground s); simpl.
  - destruct (Nat.leb_spec (length (ScatterRenderSeries.values s)) 1).
    + split; [intros [? [=]] | lia].
    + split; [intros _; split; [reflexivity | lia] | by eexists].
  - split; [intros [? [=]] | intros [[=] _]].
Qed.

Lemma length_interior {A : Type} (l : list A) :
  length (interior l) = (length l - 2)%nat.
Proof. unfold interior. rewrite length_take, length_drop. lia. Qed.

Lemma makeMidLabels_nonempty (k : nat) (s : ScatterRenderSeries.t) :
  makeMidLabels E this k s <> []
  <-> ScatterRenderSeries.isForeground s = true
      /\ (3 <= length (ScatterRenderSeries.values s))%nat
      /\ (ScatterRenderSeries.isHover s = true
          \/ isSubtleForeground this = false).
Proof.
  rewrite <- length_zero_iff_nil. unfold makeMidLabels.
  destruct (ScatterRenderSeries.isForeground s),
    (ScatterRenderSeries.isHover s), (isSubtleForeground this),
    (Nat.leb_spec (length (ScatterRenderSeries.values s)) 1); simpl;
    rewrite ?length_imap, ?length_interior; intuition (try lia; congruence).
Qed.

Lemma makeEndLabel_inv (k : nat) (s : ScatterRenderSeries.t)
    (l : ScatterLabel.t) (off : Vector2.t) :
  makeEndLabel E this k s = Some (l, off) ->
  exists lastValue,
    last (ScatterRenderSeries.values s) = Some lastValue
    /\ off
       = (if (1 <? length (ScatterRenderSeries.values s))%nat
          then Vector2.subtract (ScatterRenderValue.position lastValue)
                 (ScatterRenderValue.position
                    (ScatterRenderSeries.values s
                       !!! (length (ScatterRenderSeries.values s) - 2)%nat))
          else up E)
    /\ ScatterLabel.isEnd l = true
    /\ ScatterLabel.text l = ScatterRenderSeries.text s
    /\ ScatterLabel.fontSize l
       = ScatterRenderValue.fontSize lastValue
         * (if ScatterRenderSeries.isForeground s
            then (if isSubtleForeground this then 1.2 else 1.3) else 1.1)
    /\ ScatterLabel.pos l
       = Vector2.add (ScatterRenderValue.position lastValue)
           (Vector2.times (normalize E off)
              (if (length (ScatterRenderSeries.values s) =? 1)%nat
               then ScatterRenderValue.size lastValue + 1 else 5)).
Proof.
  unfold makeEndLabel.
  destruct (last (ScatterRenderSeries.values s)) as [lastValue|];
    [| discriminate].
  simpl. intros [= <- <-]. exists lastValue. simpl. repeat split.
Qed.

(** The labels of a series of the render data: those the synthesizer made
    for it, as the resolver left them, at consecutive places of the
    store. *)
Lemma series_labels_inv (rd : RenderData) (i : nat)
    (s : ScatterRenderSeries.t) :
  renderData E this = Some rd -> rd_series rd !! i = Some s ->
  exists s0 n lend,
    ScatterRenderSeries.values s = ScatterRenderSeries.values s0
    /\ ScatterRenderSeries.text s = ScatterRenderSeries.text s0
    /\ ScatterRenderSeries.isHover s = ScatterRenderSeries.isHover s0
    /\ ScatterRenderSeries.isForeground s
       = ScatterRenderSeries.isForeground s0
    /\ makeEndLabel E this i s0
       = Some (lend, ScatterRenderSeries.offsetVector s)
    /\ ScatterRenderSeries.startLabel s
       = (fun _ => n) <$> makeStartLabel E this i s0
    /\ ScatterRenderSeries.midLabels s
       = seq (n + length (option_list (makeStartLabel E this i s0)))
           (length (makeMidLabels E this i s0))
    /\ ScatterRenderSeries.endLabel s
       = Some (n + length (option_list (makeStartLabel E this i s0)
                           ++ makeMidLabels E this i s0))%nat
    /\ ScatterRenderSeries.allLabels s
       = seq n (length (option_list (makeStartLabel E this i s0)
                        ++ makeMidLabels E this i s0 ++ [lend]))
    /\ forall k l0,
         (option_list (makeStartLabel E this i s0)
          ++ makeMidLabels E this i s0 ++ [lend]) !! k = Some l0 ->
         exists l,
           rd_labels rd !! (n + k)%nat = Some l
           /\ onlyPlaceAndIsHiddenWritten l0 l.
Proof.
  intros Hrd Hi.
  destruct (renderData_series_inv _ _ _ _ _ Hrd Hi)
    as (d & s1 & st & st' & store & _ & _ & Hls & Hpre & Hfr).
  apply labelSeries_inv in Hls as (lend & off & He & Hst & ->).
  exists (markSeries this s1), (length st), lend. simpl.
  split; [reflexivity |]. split; [reflexivity |]. split; [reflexivity |].
  split; [reflexivity |]. split; [exact He |]. split; [reflexivity |].
  split; [by rewrite length_app |].
  split; [by rewrite <- app_assoc, length_app |].
  split.
  - rewrite !length_app.
    destruct (makeStartLabel E this i (markSeries this s1)); simpl.
    + replace (length st + 1)%nat with (S (length st)) by lia.
      f_equal. rewrite seq_app. reflexivity.
    + rewrite Nat.add_0_r, seq_app. reflexivity.
  - intros k l0 Hk.
    assert (store !! (length st + k)%nat = Some l0) as Hstore.
    { eapply prefix_lookup_Some; [| exact Hpre].
      rewrite Hst. by rewrite lookup_app_r, Nat.add_comm, Nat.add_sub by lia. }
    destruct (Forall2_lookup_l _ _ _ _ _ Hfr Hstore) as (l & Hl & Hw).
    eauto.
Qed.

End SeriesLabels.

(** C6: when every input series has at least one value the render data
    exist, with one series for each input series, and every series of the
    render data has an end label in the store: its text is the text of the
    series (the entity name), its font size is the font size of the last
    value times 1.3 for a foreground series (1.2 in subtle-foreground
    mode) and 1.1 otherwise, and its anchor is the last point moved along
    the normalized offset vector (the last segment, or [up] for a single
    value) by the size of the last value plus one for a single value and
    by 5 otherwise.  No other label of the series is an end label. *)
Theorem end_label (E : Externals) (this : PointsWithLabels) :
  Forall (fun d => ScatterSeries.values d <> []) (data this) ->
  exists rd,
    renderData E this = Some rd
    /\ length (rd_series rd) = length (data this)
    /\ forall i s,
         rd_series rd !! i = Some s ->
         exists e l lastValue,
           ScatterRenderSeries.endLabel s = Some e
           /\ rd_labels rd !! e = Some l
           /\ last (ScatterRenderSeries.values s) = Some lastValue
           /\ ScatterLabel.isEnd l = true
           /\ ScatterLabel.text l = ScatterRenderSeries.text s
           /\ ScatterLabel.fontSize l
              = ScatterRenderValue.fontSize lastValue
                * (if ScatterRenderSeries.isForeground s
                   then (if isSubtleForeground this then 1.2 else 1.3)
                   else 1.1)
           /\ ScatterRenderSeries.offsetVector s
              = (if (1 <? length (ScatterRenderSeries.values s))%nat
                 then Vector2.subtract (ScatterRenderValue.position lastValue)
                        (ScatterRenderValue.position
                           (ScatterRenderSeries.values s
                              !!! (length (ScatterRenderSeries.values s) - 2)%nat))
                 else up E)
           /\ ScatterLabel.pos l
              = Vector2.add (ScatterRenderValue.position lastValue)
                  (Vector2.times
                     (normalize E (ScatterRenderSeries.offsetVector s))
                     (if (length (ScatterRenderSeries.values s) =? 1)%nat
                      then ScatterRenderValue.size lastValue + 1 else 5))
           /\ NoDup (ScatterRenderSeries.allLabels s)
           /\ e ∈ ScatterRenderSeries.allLabels s
           /\ forall id l',
                id ∈ ScatterRenderSeries.allLabels s ->
                rd_labels rd !! id = Some l' ->
                ScatterLabel.isEnd l' = true -> id = e.
Proof.
  intros Hdata.
  destruct (renderData_is_Some E this Hdata) as [rd Hrd].
  exists rd. split; [exact Hrd |]. split.
  { pose proof (renderData_keys E this rd Hrd) as Hperm.
    apply Permutation_length in Hperm. by rewrite !length_fmap in Hperm. }
  intros i s Hi.
  destruct (series_labels_inv E this rd i s Hrd Hi)
    as (s0 & n & lend & Hv & Ht & Hh & Hf & He & _ & _ & Hend & Hall & Hlook).
  set (front := option_list (makeStartLabel E this i s0)
                ++ makeMidLabels E this i s0) in *.
  assert (forall l0, l0 ∈ front -> ScatterLabel.isEnd l0 = false) as Hfront.
  { intros l0 Hl0. apply elem_of_app in Hl0 as [Hl0|Hl0].
    - destruct (makeStartLabel E this i s0) as [ls|] eqn:Hs; simpl in Hl0.
      + apply list_elem_of_singleton in Hl0 as ->.
        by apply makeStartLabel_visible in Hs as [_ ?].
      + by apply elem_of_nil in Hl0.
    - pose proof (makeMidLabels_visible E this i s0) as Hm.
      rewrite Forall_forall in Hm. by apply Hm in Hl0 as [_ ?]. }
  rewrite app_assoc in Hall, Hlook. fold front in Hall, Hlook.
  destruct (Hlook (length front) lend) as (l & Hl & Hw).
  { by rewrite lookup_app_r, Nat.sub_diag by lia. }
  destruct (makeEndLabel_inv E this i s0 _ _ He)
    as (lastValue & Hlast & Hoff & Hisend & Htext & Hfont & Hpos).
  destruct Hw as (Wt & Wf & Wp & _ & _ & _ & _ & _ & We).
  exists (n + length front)%nat, l, lastValue.
  rewrite Hv, Ht, Hf, Wt, Wf, Wp, We.
  repeat split; try assumption.
  - rewrite Hall. apply NoDup_seq.
  - rewrite Hall. apply elem_of_seq. rewrite length_app. simpl. lia.
  - intros id l' Hid Hl' Hend'.
    rewrite Hall in Hid. apply elem_of_seq in Hid as [Hge Hlt].
    rewrite length_app in Hlt. simpl in Hlt.
    destruct (decide (id = n + length front)%nat) as [|Hne]; [assumption |].
    exfalso.
    assert (id - n < length front)%nat as Hk by lia.
    apply lookup_lt_is_Some_2 in Hk as [l0 Hl0].
    destruct (Hlook (id - n)%nat l0) as (l1 & Hl1 & Hw1).
    { by apply lookup_app_l_Some. }
    replace (n + (id - n))%nat with id in Hl1 by lia.
    assert (l1 = l') as -> by congruence.
    destruct Hw1 as (_ & _ & _ & _ & _ & _ & _ & _ & We1).
    rewrite We1, (Hfront l0) in Hend'; [discriminate |].
    apply list_elem_of_lookup. eauto.
Qed.

Lemma end_label_witness :
  Forall (fun d => ScatterSeries.values d <> []) (data (mount sampleProps))
  /\ exists rd,
       renderData sampleExternals (mount sampleProps) = Some rd
       /\ length (rd_series rd) = length (data (mount sampleProps)).
Proof.
  assert (Forall (fun d => ScatterSeries.values d <> [])
            (data (mount sampleProps))) as H
    by (repeat constructor; discriminate).
  split; [exact H |].
  destruct (end_label sampleExternals (mount sampleProps) H)
    as (rd & Hrd & Hlen & _).
  exists rd. split; [exact Hrd | exact Hlen].
Defined.

(** C7: when every input series has at least one value the render data
    exist, and for every series of the render data: a start label is made
    exactly when the series is foreground and has at least two values; the
    list of mid labels is not empty exactly when the series is foreground,
    has at least three values and is hovered or the chart is not in
    subtle-foreground mode; a series with a single value has no start
    label and no mid label, and its only label is its end label. *)
Theorem start_and_mid_labels (E : Externals) (this : PointsWithLabels) :
  Forall (fun d => ScatterSeries.values d <> []) (data this) ->
  exists rd,
    renderData E this = Some rd
    /\ forall i s,
         rd_series rd !! i = Some s ->
         (is_Some (ScatterRenderSeries.startLabel s)
          <-> ScatterRenderSeries.isForeground s = true
              /\ (2 <= length (ScatterRenderSeries.values s))%nat)
         /\ (ScatterRenderSeries.midLabels s <> []
             <-> ScatterRenderSeries.isForeground s = true
                 /\ (3 <= length (ScatterRenderSeries.values s))%nat
                 /\ (ScatterRenderSeries.isHover s = true
                     \/ isSubtleForeground this = false))
         /\ (length (ScatterRenderSeries.values s) = 1%nat ->
             ScatterRenderSeries.startLabel s = None
             /\ ScatterRenderSeries.midLabels s = []
             /\ exists e l,
                  ScatterRenderSeries.endLabel s = Some e
                  /\ ScatterRenderSeries.allLabels s = [e]
                  /\ rd_labels rd !! e = Some l
                  /\ ScatterLabel.isEnd l = true).
Proof.
  intros Hdata.
  destruct (renderData_is_Some E this Hdata) as [rd Hrd].
  exists rd. split; [exact Hrd |].
  intros i s Hi.
  destruct (series_labels_inv E this rd i s Hrd Hi)
    as (s0 & n & lend & Hv & _ & Hh & Hf & He & Hstart & Hmid & Hend & Hall
        & Hlook).
  pose proof (makeStartLabel_is_Some E this i s0) as Hs.
  pose proof (makeMidLabels_nonempty E this i s0) as Hm.
  rewrite <- Hv, <- Hf in Hs. rewrite <- Hv, <- Hf, <- Hh in Hm.
  assert (is_Some (ScatterRenderSeries.startLabel s)
          <-> is_Some (makeStartLabel E this i s0)) as Hs'.
  { rewrite Hstart. apply fmap_is_Some. }
  assert (ScatterRenderSeries.midLabels s <> []
          <-> makeMidLabels E this i s0 <> []) as Hm'.
  { rewrite Hmid, <- !length_zero_iff_nil, length_seq. reflexivity. }
  split; [by rewrite Hs' |]. split; [by rewrite Hm' |].
  intros Hone.
  assert (makeStartLabel E this i s0 = None) as Hnone.
  { destruct (makeStartLabel E this i s0) eqn:Hsl; [| reflexivity].
    assert (is_Some (Some t)) as Hsome by eauto.
    apply Hs in Hsome. lia. }
  assert (makeMidLabels E this i s0 = []) as Hnil.
  { destruct (makeMidLabels E this i s0) eqn:Hml; [reflexivity |].
    assert (t :: l <> []) as Hne by discriminate.
    apply Hm in Hne. lia. }
  rewrite Hnone, Hnil in *. simpl in *.
  split; [exact Hstart |]. split; [exact Hmid |].
  destruct (Hlook 0%nat lend eq_refl) as (l & Hl & Hw).
  exists (n + 0)%nat, l. rewrite Nat.add_0_r in *.
  repeat split; try assumption.
  destruct Hw as (_ & _ & _ & _ & _ & _ & _ & _ & ->).
  by apply makeEndLabel_visible in He as [_ ?].
Qed.

Lemma start_and_mid_labels_witness :
  Forall (fun d => ScatterSeries.values d <> []) (data (mount sampleProps))
  /\ exists rd,
       renderData sampleExternals (mount sampleProps) = Some rd
       /\ (is_Some (ScatterRenderSeries.startLabel (rd_series rd !!! 0%nat))
           <-> ScatterRenderSeries.isForeground (rd_series rd !!! 0%nat) = true
               /\ (2 <= length (ScatterRenderSeries.values
                                  (rd_series rd !!! 0%nat)))%nat).
Proof.
  assert (Forall (fun d => ScatterSeries.values d <> [])
            (data (mount sampleProps))) as H
    by (repeat constructor; discriminate).
  split; [exact H |].
  destruct (start_and_mid_labels sampleExternals (mount sampleProps) H)
    as (rd & Hrd & Hser).
  exists rd. split; [exact Hrd |].
  assert (rd = sampleRenderData) as ->.
  { assert (renderData sampleExternals (mount sampleProps)
            = Some sampleRenderData) as H' by (vm_compute; reflexivity).
    congruence. }
  apply (Hser 0%nat). vm_compute. reflexivity.
Defined.

(** ** The interaction controller *)

Section Controller.
Context (E : Externals).

Lemma onMouseMove_props (this : PointsWithLabels) (mouse : Vector2.t) :
  props (fst (onMouseMove E this mouse)) = props this.
Proof. unfold onMouseMove. by destruct (renderData E this). Qed.

(** [onMouseMove] sets the hover key to the key of the closest series,
    which is a series of the input list, or clears it when the render
    data have no series. *)
Lemma onMouseMove_hoverKey (this : PointsWithLabels) (mouse : Vector2.t)
    (rd : RenderData) :
  renderData E this = Some rd ->
  match hoverKey (fst (onMouseMove E this mouse)) with
  | Some k => k ∈ ScatterSeries.key <$> data this
  | None => rd_series rd = []
  end.
Proof.
  intros Hrd. unfold onMouseMove. rewrite Hrd. simpl.
  destruct (sortByWith undefinedLast (mouseDistance E this mouse)
              (rd_series rd)) as [|s l] eqn:Hsort; simpl.
  - apply (f_equal length) in Hsort. rewrite length_sortByWith in Hsort.
    by apply length_zero_iff_nil.
  - apply (renderData_series_key E this rd s Hrd).
    apply (elem_of_sortByWith undefinedLast (mouseDistance E this mouse)).
    rewrite Hsort. left.
Qed.

Lemma step_hoverKeyPresent (p : PointsWithLabelsProps)
    (this : PointsWithLabels) (e : Event) :
  keepsData p e ->
  props_data (props this) = props_data p ->
  hoverKeyPresent this ->
  props_data (props (step E this e)) = props_data p
  /\ hoverKeyPresent (step E this e).
Proof.
  intros Hkeep Hdata Hinv. destruct e as [mouse| | |p']; simpl.
  - rewrite onMouseMove_props. split; [exact Hdata |].
    unfold hoverKeyPresent, data. rewrite onMouseMove_props.
    destruct (renderData E this) as [rd|] eqn:Hrd.
    + pose proof (onMouseMove_hoverKey this mouse rd Hrd) as H.
      by destruct (hoverKey (fst (onMouseMove E this mouse))).
    + unfold onMouseMove. rewrite Hrd. exact Hinv.
  - split; [exact Hdata | exact I].
  - split; [exact Hdata | exact Hinv].
  - simpl in Hkeep. split; [exact Hkeep |].
    unfold hoverKeyPresent, data in *. simpl.
    by rewrite Hkeep, <- Hdata.
Qed.

End Controller.




(** * Further properties *)

(** ** When the render data exist, and what series they hold *)

(** X1: [renderData] throws exactly when some input series has no value;
    no other input makes it fail. *)
Theorem renderData_throws_iff (E : Externals) (this : PointsWithLabels) :
  renderData E this = None
  <-> Exists (fun d => ScatterSeries.values d = []) (data this).
Proof.
  split.
  - intros Hnone.
    destruct (decide (Forall (fun d => ScatterSeries.values d <> [])
                        (data this))) as [Hall|Hnot].
    + destruct (renderData_is_Some E this Hall) as [rd Hrd]. congruence.
    + apply not_Forall_Exists in Hnot; [| intros d; apply _].
      eapply Exists_impl; [exact Hnot |]. simpl. intros d Hd.
      destruct (ScatterSeries.values d); [reflexivity |].
      exfalso. apply Hd. discriminate.
  - intros Hex. destruct (renderData E this) as [rd|] eqn:Hrd; [| reflexivity].
    exfalso. apply (renderData_Some_values E this rd) in Hrd.
    apply Exists_exists in Hex as (d & Hd & Hnil).
    rewrite Forall_forall in Hrd. by apply (Hrd d Hd).
Qed.

(** X2: the series of the render data are the input series in another
    order: keys and labels are those of the input, each input series once;
    the display key of a series is "key-" followed by its key made safe
    for CSS, and its colour is the colour of an input series of the same
    key, or the default colour of the key where that is absent. *)
Theorem series_are_input_series (E : Externals) (this : PointsWithLabels)
    (rd : RenderData) :
  renderData E this = Some rd ->
  (fun s => (ScatterRenderSeries.key s, ScatterRenderSeries.text s))
    <$> rd_series rd
  ≡ₚ (fun d => (ScatterSeries.key d, ScatterSeries.label d)) <$> data this
  /\ forall s,
       s ∈ rd_series rd ->
       ScatterRenderSeries.displayKey s
       = "key-" +:+ makeSafeForCSS E (ScatterRenderSeries.key s)
       /\ exists d,
            d ∈ data this
            /\ ScatterSeries.key d = ScatterRenderSeries.key s
            /\ ScatterRenderSeries.color s
               = orString (ScatterSeries.color d)
                   (defaultColorScale E (ScatterRenderSeries.key s)).
Proof.
  intros Hrd. split; [exact (renderData_keys E this rd Hrd) |].
  intros s Hs. apply list_elem_of_lookup in Hs as [i Hi].
  destruct (renderData_series_inv _ _ _ _ _ Hrd Hi)
    as (d & s0 & st & st' & store & Hin & Hd & Hls & _).
  apply labelSeries_inv in Hls as (lend & off & _ & _ & ->). simpl.
  unfold initialRenderSeries in Hd.
  destruct (last (map (initialRenderValue E this d) (ScatterSeries.values d)))
    as [lastValue|]; [| discriminate].
  simpl in Hd. injection Hd as <-. simpl.
  split; [reflexivity |]. exists d. auto.
Qed.

Lemma series_are_input_series_witness :
  renderData sampleExternals (mount sampleProps) = Some sampleRenderData
  /\ (fun s => (ScatterRenderSeries.key s, ScatterRenderSeries.text s))
       <$> rd_series sampleRenderData
     ≡ₚ (fun d => (ScatterSeries.key d, ScatterSeries.label d))
          <$> data (mount sampleProps).
Proof.
  assert (renderData sampleExternals (mount sampleProps)
          = Some sampleRenderData) as H by (vm_compute; reflexivity).
  split; [exact H |].
  apply (series_are_input_series sampleExternals (mount sampleProps)
           sampleRenderData H).
Defined.

(** Every series of the render data is, at its position in the sort by
    descending size, a series of [initialRenderData], marked and
    labelled. *)
Lemma renderData_series_at (E : Externals) (this : PointsWithLabels)
    (rd : RenderData) (i : nat) (s : ScatterRenderSeries.t) :
  renderData E this = Some rd -> rd_series rd !! i = Some s ->
  exists ird s0 st st',
    initialRenderData E this = Some ird
    /\ sortBy (fun d => - ScatterRenderSeries.size d) ird !! i = Some s0
    /\ labelSeries E this i (markSeries this s0) st = Some (s, st').
Proof.
  intros Hrd Hi.
  apply renderData_inv in Hrd as (ird & Hird & Hrd).
  apply renderDataFrom_inv in Hrd as (store & Hlab & _).
  destruct (labelEach_lookup _ _ _ _ _ _ _ _ _ Hlab Hi)
    as (s1 & st & st' & Hs1 & Hls & _).
  apply list_lookup_fmap_Some in Hs1 as (s0 & -> & Hs0).
  by exists ird, s0, st, st'.
Qed.




(** ** Foreground and background *)

Lemma filter_complement_Permutation {A : Type} (f : A -> bool) (l : list A) :
  filter (fun a => f a = false) l ++ filter (fun a => f a = true) l ≡ₚ l.
Proof.
  induction l as [|a l IH]; [reflexivity |].
  rewrite !filter_cons. destruct (f a) eqn:Hf.
  - rewrite decide_False by discriminate.
    rewrite decide_True by reflexivity.
    rewrite <- Permutation_middle. by rewrite IH.
  - rewrite decide_True by reflexivity.
    rewrite decide_False by discriminate.
    simpl. by rewrite IH.
Qed.

Lemma renderData_series_flags (E : Externals) (this : PointsWithLabels)
    (rd : RenderData) (s : ScatterRenderSeries.t) :
  renderData E this = Some rd -> s ∈ rd_series rd ->
  ScatterRenderSeries.isHover s
  = includes (hoverKeys this) (ScatterRenderSeries.key s)
  /\ ScatterRenderSeries.isFocus s
     = includes (focusKeys this) (ScatterRenderSeries.key s)
  /\ ScatterRenderSeries.isForeground s
     = ScatterRenderSeries.isHover s || ScatterRenderSeries.isFocus s.
Proof.
  intros Hrd Hs. apply list_elem_of_lookup in Hs as [i Hi].
  destruct (renderData_series_at E this rd i s Hrd Hi)
    as (ird & s0 & st & st' & _ & _ & Hls).
  apply labelSeries_inv in Hls as (? & ? & _ & _ & ->). simpl. auto.
Qed.

(** X4: every series of the render data is in exactly one of the two
    groups; it is in the foreground group exactly when its key is among
    the hover keys (those of the props and the hover key of the component)
    or the focus keys, and in the background group otherwise. *)
Theorem groups_partition (E : Externals) (this : PointsWithLabels)
    (rd : RenderData) :
  renderData E this = Some rd ->
  (backgroundGroups rd ++ foregroundGroups rd ≡ₚ rd_series rd)
  /\ forall s,
       s ∈ rd_series rd ->
       (s ∈ foregroundGroups rd
        <-> ScatterRenderSeries.key s ∈ hoverKeys this
            \/ ScatterRenderSeries.key s ∈ focusKeys this)
       /\ (s ∈ backgroundGroups rd
           <-> (ScatterRenderSeries.key s ∉ hoverKeys this)
               /\ (ScatterRenderSeries.key s ∉ focusKeys this)).
Proof.
  intros Hrd. split.
  { apply (filter_complement_Permutation ScatterRenderSeries.isForeground). }
  intros s Hs.
  destruct (renderData_series_flags E this rd s Hrd Hs) as (Hh & Hf & Hfg).
  unfold foregroundGroups, backgroundGroups. rewrite !list_elem_of_filter.
  rewrite Hfg, Hh, Hf. unfold includes.
  rewrite orb_true_iff, orb_false_iff, !bool_decide_eq_true,
    !bool_decide_eq_false.
  tauto.
Qed.

Lemma groups_partition_witness :
  renderData sampleExternals (mount sampleProps) = Some sampleRenderData
  /\ (backgroundGroups sampleRenderData ++ foregroundGroups sampleRenderData
      ≡ₚ rd_series sampleRenderData).
Proof.
  assert (renderData sampleExternals (mount sampleProps)
          = Some sampleRenderData) as H by (vm_compute; reflexivity).
  split; [exact H |].
  apply (groups_partition sampleExternals (mount sampleProps)
           sampleRenderData H).
Defined.

(** X5: a background series has no start label and no mid label: its only
    label is its end label, which bears its text. *)
Theorem background_single_label (E : Externals) (this : PointsWithLabels)
    (rd : RenderData) (s : ScatterRenderSeries.t) :
  renderData E this = Some rd ->
  s ∈ backgroundGroups rd ->
  ScatterRenderSeries.startLabel s = None
  /\ ScatterRenderSeries.midLabels s = []
  /\ exists e l,
       ScatterRenderSeries.endLabel s = Some e
       /\ ScatterRenderSeries.allLabels s = [e]
       /\ rd_labels rd !! e = Some l
       /\ ScatterLabel.isEnd l = true
       /\ ScatterLabel.text l = ScatterRenderSeries.text s.
Proof.
  intros Hrd Hs. apply list_elem_of_filter in Hs as [Hbg Hs].
  apply list_elem_of_lookup in Hs as [i Hi].
  destruct (series_labels_inv E this rd i s Hrd Hi)
    as (s0 & n & lend & Hv & Ht & Hh & Hf & He & Hstart & Hmid & Hend & Hall
        & Hlook).
  assert (makeStartLabel E this i s0 = None) as Hnone.
  { unfold makeStartLabel. by rewrite <- Hf, Hbg. }
  assert (makeMidLabels E this i s0 = []) as Hnil.
  { unfold makeMidLabels. by rewrite <- Hf, Hbg. }
  rewrite Hnone, Hnil in *. simpl in *.
  split; [exact Hstart |]. split; [exact Hmid |].
  destruct (Hlook 0%nat lend eq_refl) as (l & Hl & Hw).
  exists (n + 0)%nat, l. rewrite Nat.add_0_r in *.
  destruct Hw as (Wt & _ & _ & _ & _ & _ & _ & _ & We).
  destruct (makeEndLabel_inv E this i s0 _ _ He)
    as (lastValue & _ & _ & Hisend & Htext & _).
  repeat split; try assumption; congruence.
Qed.

Lemma background_single_label_witness :
  renderData sampleExternals (mount sampleProps) = Some sampleRenderData
  /\ rd_series sampleRenderData !!! 1%nat ∈ backgroundGroups sampleRenderData
  /\ ScatterRenderSeries.allLabels (rd_series sampleRenderData !!! 1%nat)
     = [3%nat].
Proof.
  assert (renderData sampleExternals (mount sampleProps)
          = Some sampleRenderData) as H by (vm_compute; reflexivity).
  assert (rd_series sampleRenderData !!! 1%nat
            ∈ backgroundGroups sampleRenderData) as Hbg.
  { apply list_elem_of_lookup. exists 0%nat. vm_compute. reflexivity. }
  split; [exact H |]. split; [exact Hbg |].
  destruct (background_single_label sampleExternals (mount sampleProps)
              sampleRenderData _ H Hbg)
    as (_ & _ & e & l & He & Hall & _).
  rewrite Hall. f_equal.
  assert (ScatterRenderSeries.endLabel (rd_series sampleRenderData !!! 1%nat)
          = Some 3%nat) as He' by (vm_compute; reflexivity).
  congruence.
Defined.

Lemma filter_all {A : Type} (P : A -> Prop) `{!forall a, Decision (P a)}
    (l : list A) :
  Forall P l -> filter P l = l.
Proof.
  induction 1 as [|a l Ha Hl IH]; [reflexivity |].
  rewrite filter_cons, decide_True by assumption. by rewrite IH.
Qed.

Lemma filter_none {A : Type} (P : A -> Prop) `{!forall a, Decision (P a)}
    (l : list A) :
  Forall (fun a => ~ P a) l -> filter P l = [].
Proof.
  induction 1 as [|a l Ha Hl IH]; [reflexivity |].
  by rewrite filter_cons, decide_False by assumption.
Qed.

(** X6: outside layer mode (no focus key and no hover key) no series is
    drawn in the foreground: the background group is the whole render
    data. *)
Theorem no_layer_mode_all_background (E : Externals) (this : PointsWithLabels)
    (rd : RenderData) :
  isLayerMode this = false ->
  renderData E this = Some rd ->
  foregroundGroups rd = [] /\ backgroundGroups rd = rd_series rd.
Proof.
  intros Hmode Hrd. unfold isLayerMode in Hmode.
  apply orb_false_iff in Hmode as [Hf Hh].
  apply Nat.ltb_ge in Hf, Hh.
  assert (focusKeys this = []) as Hfocus
    by (destruct (focusKeys this); [reflexivity | simpl in Hf; lia]).
  assert (hoverKeys this = []) as Hhover
    by (destruct (hoverKeys this); [reflexivity | simpl in Hh; lia]).
  assert (Forall (fun s => ScatterRenderSeries.isForeground s = false)
            (rd_series rd)) as Hall.
  { apply Forall_forall. intros s Hs.
    destruct (renderData_series_flags E this rd s Hrd Hs) as (H1 & H2 & ->).
    assert (forall k, includes [] k = false) as Hinc
      by (intros k; apply bool_decide_eq_false_2, not_elem_of_nil).
    by rewrite H1, H2, Hfocus, Hhover, !Hinc. }
  split.
  - apply filter_none. eapply Forall_impl; [exact Hall |].
    simpl. intros s ->. discriminate.
  - by apply filter_all.
Qed.

Lemma no_layer_mode_all_background_witness :
  isLayerMode (mount plainProps) = false
  /\ renderData sampleExternals (mount plainProps) = Some plainRenderData
  /\ foregroundGroups plainRenderData = []
  /\ backgroundGroups plainRenderData = rd_series plainRenderData.
Proof.
  assert (isLayerMode (mount plainProps) = false) as Hm by reflexivity.
  assert (renderData sampleExternals (mount plainProps)
          = Some plainRenderData) as H by (vm_compute; reflexivity).
  split; [exact Hm |]. split; [exact H |].
  exact (no_layer_mode_all_background sampleExternals (mount plainProps)
           plainRenderData Hm H).
Defined.

(** X7: subtle-foreground mode only occurs in layer mode on a connected
    chart: it takes more than one focus key and a series of more than two
    values. *)
Theorem subtle_foreground_implies (this : PointsWithLabels) :
  isSubtleForeground this = true ->
  isLayerMode this = true /\ isConnected this = true.
Proof.
  unfold isSubtleForeground, isLayerMode, isConnected, data.
  intros H. apply andb_true_iff in H as [Hlen Hex].
  apply Nat.ltb_lt in Hlen. split.
  - apply orb_true_iff. left. apply Nat.ltb_lt. lia.
  - apply existsb_exists in Hex as (d & Hd & Hlt).
    apply existsb_exists. exists d. split; [exact Hd |].
    apply Nat.ltb_lt in Hlt. apply Nat.ltb_lt. lia.
Qed.

Lemma subtle_foreground_implies_witness :
  isSubtleForeground (mount subtleProps) = true
  /\ isLayerMode (mount subtleProps) = true
  /\ isConnected (mount subtleProps) = true.
Proof.
  assert (isSubtleForeground (mount subtleProps) = true) as H by reflexivity.
  split; [exact H | exact (subtle_foreground_implies (mount subtleProps) H)].
Defined.

(** ** The labels in the store *)

Section LabelContents.
Context (E : Externals) (this : PointsWithLabels).

Lemma makeStartLabel_inv (k : nat) (s : ScatterRenderSeries.t)
    (l : ScatterLabel.t) :
  makeStartLabel E this k s = Some l ->
  exists first,
    ScatterRenderSeries.values s !! 0%nat = Some first
    /\ ScatterLabel.isStart l = true
    /\ ScatterLabel.isMid l = false
    /\ ScatterLabel.series l = k
    /\ ScatterLabel.text l
       = toString E (time_y (ScatterRenderValue.time first))
    /\ ScatterLabel.pos l = ScatterRenderValue.position first
    /\ ScatterLabel.fontSize l = (if isSubtleForeground this then 8 else 9).
Proof.
  unfold makeStartLabel, yearFontSize.
  destruct (ScatterRenderSeries.isForeground s); simpl; [| discriminate].
  destruct (Nat.leb_spec (length (ScatterRenderSeries.values s)) 1)
    as [|Hlen]; [discriminate |].
  intros [= <-]. simpl.
  destruct (lookup_lt_is_Some_2 (ScatterRenderSeries.values s) 0%nat)
    as [first Hfirst]; [lia |].
  exists first. rewrite (list_lookup_total_correct _ _ _ Hfirst).
  repeat split. exact Hfirst.
Qed.

Lemma lookup_interior {A : Type} (l : list A) (k : nat) (a : A) :
  interior l !! k = Some a -> l !! S k = Some a.
Proof.
  unfold interior. intros H.
  apply lookup_take_Some in H as [H _].
  by rewrite lookup_drop in H.
Qed.

Lemma makeMidLabels_lookup (k : nat) (s : ScatterRenderSeries.t) (j : nat)
    (l : ScatterLabel.t) :
  makeMidLabels E this k s !! j = Some l ->
  exists v,
    ScatterRenderSeries.values s !! S j = Some v
    /\ ScatterLabel.isMid l = true
    /\ ScatterLabel.isStart l = false
    /\ ScatterLabel.series l = k
    /\ ScatterLabel.text l = toString E (time_y (ScatterRenderValue.time v))
    /\ ScatterLabel.pos l = ScatterRenderValue.position v
    /\ ScatterLabel.fontSize l = (if isSubtleForeground this then 8 else 9).
Proof.
  unfold makeMidLabels.
  destruct (ScatterRenderSeries.isForeground s) eqn:Hfg; simpl;
    [| by rewrite lookup_nil].
  case_match; [by rewrite lookup_nil |].
  rewrite list_lookup_imap. intros Hl.
  destruct (interior (ScatterRenderSeries.values s) !! j) as [v|] eqn:Hv;
    [| discriminate].
  simpl in Hl. injection Hl as <-. exists v.
  split; [by apply lookup_interior |].
  unfold makeMidLabel, yearFontSize. simpl. rewrite Hfg. repeat split.
Qed.

Lemma makeMidLabels_length (k : nat) (s : ScatterRenderSeries.t) :
  length (makeMidLabels E this k s)
  = if ScatterRenderSeries.isForeground s
       && (ScatterRenderSeries.isHover s || negb (isSubtleForeground this))
    then (length (ScatterRenderSeries.values s) - 2)%nat else 0%nat.
Proof.
  unfold makeMidLabels.
  destruct (ScatterRenderSeries.isForeground s),
    (ScatterRenderSeries.isHover s), (isSubtleForeground this),
    (Nat.leb_spec (length (ScatterRenderSeries.values s)) 1); simpl;
    rewrite ?length_imap, ?length_interior; lia.
Qed.

Lemma makeEndLabel_series (k : nat) (s : ScatterRenderSeries.t)
    (l : ScatterLabel.t) (off : Vector2.t) :
  makeEndLabel E this k s = Some (l, off) -> ScatterLabel.series l = k.
Proof.
  unfold makeEndLabel.
  destruct (last (ScatterRenderSeries.values s)); [| discriminate].
  simpl. by intros [= <- _].
Qed.

(** Every label made for the series at position [k] refers to it. *)
Lemma new_labels_series (k : nat) (s : ScatterRenderSeries.t)
    (lend l : ScatterLabel.t) (off : Vector2.t) :
  makeEndLabel E this k s = Some (lend, off) ->
  l ∈ option_list (makeStartLabel E this k s)
        ++ makeMidLabels E this k s ++ [lend] ->
  ScatterLabel.series l = k.
Proof.
  intros He Hl. rewrite !elem_of_app in Hl. destruct Hl as [Hl|[Hl|Hl]].
  - destruct (makeStartLabel E this k s) as [ls|] eqn:Hs; simpl in Hl.
    + apply list_elem_of_singleton in Hl as ->.
      by apply makeStartLabel_inv in Hs as (? & _ & _ & _ & ? & _).
    + by apply elem_of_nil in Hl.
  - apply list_elem_of_lookup in Hl as [j Hj].
    by apply makeMidLabels_lookup in Hj as (? & _ & _ & _ & ? & _).
  - apply list_elem_of_singleton in Hl as ->.
    by apply makeEndLabel_series in He.
Qed.

End LabelContents.

(** X8: the labels of the store belong to the series one to one: the
    label lists of the series, one after the other, name every label of
    the store exactly once, and a label listed by the series at position
    [i] refers back to position [i]. *)
Theorem label_ownership (E : Externals) (this : PointsWithLabels)
    (rd : RenderData) :
  renderData E this = Some rd ->
  concat (ScatterRenderSeries.allLabels <$> rd_series rd)
  = seq 0 (length (rd_labels rd))
  /\ forall i s id l,
       rd_series rd !! i = Some s ->
       id ∈ ScatterRenderSeries.allLabels s ->
       rd_labels rd !! id = Some l ->
       ScatterLabel.series l = i.
Proof.
  intros Hrd. split.
  - pose proof Hrd as Hrd'.
    apply renderData_inv in Hrd' as (ird & _ & Hfrom).
    apply renderDataFrom_inv in Hfrom as (store & _ & Hall & _ & Hlab).
    by rewrite Hall, Hlab, resolveLabels_length.
  - intros i s id l Hi Hid Hl.
    destruct (series_labels_inv E this rd i s Hrd Hi)
      as (s0 & n & lend & _ & _ & _ & _ & He & _ & _ & _ & Hall & Hlook).
    rewrite Hall in Hid. apply elem_of_seq in Hid as [Hge Hlt].
    assert (id - n < length (option_list (makeStartLabel E this i s0)
                             ++ makeMidLabels E this i s0 ++ [lend]))%nat
      as Hk by lia.
    apply lookup_lt_is_Some_2 in Hk as [l0 Hl0].
    destruct (Hlook _ _ Hl0) as (l1 & Hl1 & Hw).
    replace (n + (id - n))%nat with id in Hl1 by lia.
    assert (l1 = l) as -> by congruence.
    destruct Hw as (_ & _ & _ & _ & _ & -> & _).
    eapply new_labels_series; [exact He |].
    apply list_elem_of_lookup. eauto.
Qed.

Lemma label_ownership_witness :
  renderData sampleExternals (mount sampleProps) = Some sampleRenderData
  /\ concat (ScatterRenderSeries.allLabels <$> rd_series sampleRenderData)
     = seq 0 (length (rd_labels sampleRenderData)).
Proof.
  assert (renderData sampleExternals (mount sampleProps)
          = Some sampleRenderData) as H by (vm_compute; reflexivity).
  split; [exact H |].
  apply (label_ownership sampleExternals (mount sampleProps)
           sampleRenderData H).
Defined.

(** X9: the start label of a series is the first label it lists; it is a
    start label anchored at the first value, its text is the year
    ([time.y]) of that value, and its font size is 9, or 8 in
    subtle-foreground mode. *)
Theorem start_label_contents (E : Externals) (this : PointsWithLabels)
    (rd : RenderData) (i id : nat) (s : ScatterRenderSeries.t) :
  renderData E this = Some rd ->
  rd_series rd !! i = Some s ->
  ScatterRenderSeries.startLabel s = Some id ->
  exists l first,
    rd_labels rd !! id = Some l
    /\ head (ScatterRenderSeries.allLabels s) = Some id
    /\ ScatterRenderSeries.values s !! 0%nat = Some first
    /\ ScatterLabel.isStart l = true
    /\ ScatterLabel.text l = toString E (time_y (ScatterRenderValue.time first))
    /\ ScatterLabel.pos l = ScatterRenderValue.position first
    /\ ScatterLabel.fontSize l = (if isSubtleForeground this then 8 else 9).
Proof.
  intros Hrd Hi Hid.
  destruct (series_labels_inv E this rd i s Hrd Hi)
    as (s0 & n & lend & Hv & _ & _ & _ & _ & Hstart & _ & _ & Hall & Hlook).
  rewrite Hstart in Hid.
  destruct (makeStartLabel E this i s0) as [ls|] eqn:Hs; [| discriminate].
  simpl in Hid. injection Hid as <-.
  destruct (Hlook 0%nat ls eq_refl) as (l & Hl & Hw).
  rewrite Nat.add_0_r in Hl.
  apply makeStartLabel_inv in Hs
    as (first & Hfirst & Hst & _ & _ & Htext & Hpos & Hfont).
  destruct Hw as (Wt & Wf & Wp & _ & _ & _ & Ws & _ & _).
  exists l, first. rewrite Hv, Hall, Wt, Wf, Wp, Ws. simpl.
  repeat split; assumption.
Qed.

Lemma start_label_contents_witness :
  renderData sampleExternals (mount sampleProps) = Some sampleRenderData
  /\ ScatterRenderSeries.startLabel sampleFirstSeries = Some 0%nat
  /\ exists l first,
       rd_labels sampleRenderData !! 0%nat = Some l
       /\ head (ScatterRenderSeries.allLabels sampleFirstSeries) = Some 0%nat
       /\ ScatterRenderSeries.values sampleFirstSeries !! 0%nat = Some first
       /\ ScatterLabel.isStart l = true
       /\ ScatterLabel.text l
          = toString sampleExternals (time_y (ScatterRenderValue.time first))
       /\ ScatterLabel.pos l = ScatterRenderValue.position first
       /\ ScatterLabel.fontSize l
          = (if isSubtleForeground (mount sampleProps) then 8 else 9).
Proof.
  assert (renderData sampleExternals (mount sampleProps)
          = Some sampleRenderData) as H by (vm_compute; reflexivity).
  assert (rd_series sampleRenderData !! 0%nat = Some sampleFirstSeries) as H0
    by (vm_compute; reflexivity).
  assert (ScatterRenderSeries.startLabel sampleFirstSeries = Some 0%nat) as Hs
    by (vm_compute; reflexivity).
  split; [exact H |]. split; [exact Hs |].
  exact (start_label_contents sampleExternals (mount sampleProps)
           sampleRenderData 0%nat 0%nat sampleFirstSeries H H0 Hs).
Defined.

(** X10: a foreground series that is hovered, or drawn outside
    subtle-foreground mode, has one mid label for every value but the
    first and the last, and any other series has none; the mid label at
    position [k] is anchored at the value at position [k + 1] and bears
    its year, with font size 9, or 8 in subtle-foreground mode. *)
Theorem mid_label_contents (E : Externals) (this : PointsWithLabels)
    (rd : RenderData) (i : nat) (s : ScatterRenderSeries.t) :
  renderData E this = Some rd ->
  rd_series rd !! i = Some s ->
  length (ScatterRenderSeries.midLabels s)
  = (if ScatterRenderSeries.isForeground s
        && (ScatterRenderSeries.isHover s || negb (isSubtleForeground this))
     then (length (ScatterRenderSeries.values s) - 2)%nat else 0%nat)
  /\ forall k id,
       ScatterRenderSeries.midLabels s !! k = Some id ->
       exists l v,
         rd_labels rd !! id = Some l
         /\ ScatterRenderSeries.values s !! S k = Some v
         /\ ScatterLabel.isMid l = true
         /\ ScatterLabel.text l
            = toString E (time_y (ScatterRenderValue.time v))
         /\ ScatterLabel.pos l = ScatterRenderValue.position v
         /\ ScatterLabel.fontSize l
            = (if isSubtleForeground this then 8 else 9).
Proof.
  intros Hrd Hi.
  destruct (series_labels_inv E this rd i s Hrd Hi)
    as (s0 & n & lend & Hv & _ & Hh & Hf & _ & _ & Hmid & _ & _ & Hlook).
  split.
  - by rewrite Hmid, length_seq, makeMidLabels_length, Hv, Hh, Hf.
  - intros k id Hk. rewrite Hmid in Hk.
    apply lookup_seq in Hk as [-> Hlt].
    apply lookup_lt_is_Some_2 in Hlt as [lm Hlm].
    destruct (Hlook (length (option_list (makeStartLabel E this i s0)) + k)%nat
                lm) as (l & Hl & Hw).
    { rewrite lookup_app_r by lia.
      replace (length (option_list (makeStartLabel E this i s0)) + k
               - length (option_list (makeStartLabel E this i s0)))%nat
        with k by lia.
      by apply lookup_app_l_Some. }
    apply makeMidLabels_lookup in Hlm
      as (v & Hval & Hm & _ & _ & Htext & Hpos & Hfont).
    destruct Hw as (Wt & Wf & Wp & _ & _ & _ & _ & Wm & _).
    exists l, v. rewrite Hv, Wt, Wf, Wp, Wm.
    rewrite Nat.add_assoc in Hl. repeat split; assumption.
Qed.

Lemma mid_label_contents_witness :
  renderData sampleExternals (mount sampleProps) = Some sampleRenderData
  /\ length (ScatterRenderSeries.midLabels sampleFirstSeries) = 1%nat.
Proof.
  assert (renderData sampleExternals (mount sampleProps)
          = Some sampleRenderData) as H by (vm_compute; reflexivity).
  assert (rd_series sampleRenderData !! 0%nat = Some sampleFirstSeries) as H0
    by (vm_compute; reflexivity).
  split; [exact H |].
  destruct (mid_label_contents sampleExternals (mount sampleProps)
              sampleRenderData 0%nat sampleFirstSeries H H0) as [Hlen _].
  rewrite Hlen. vm_compute. reflexivity.
Defined.

(** ** The outcome of the collision detection *)

Lemma intersects_sym (a b : Bounds.t) :
  Bounds.intersects a b = Bounds.intersects b a.
Proof.
  unfold Bounds.intersects.
  destruct (Qltb (Bounds.right a) (Bounds.left b)),
    (Qltb (Bounds.right b) (Bounds.left a)),
    (Qltb (Bounds.bottom a) (Bounds.top b)),
    (Qltb (Bounds.bottom b) (Bounds.top a)); reflexivity.
Qed.

(** The labels of the render data are the outcome of the collision loops
    on the clamped store, run in an order that holds every label once. *)
Lemma renderData_collide (E : Externals) (this : PointsWithLabels)
    (rd : RenderData) :
  renderData E this = Some rd ->
  exists clamped order,
    rd_labels rd = collide order clamped
    /\ order
       = labelsByPriority (rd_series rd) (seq 0 (length clamped)) clamped
    /\ order ≡ₚ seq 0 (length clamped)
    /\ length (rd_labels rd) = length clamped
    /\ Forall (fun l => ScatterLabel.isHidden l = false) clamped.
Proof.
  intros Hrd.
  apply renderData_inv in Hrd as (ird & _ & Hrd).
  apply renderDataFrom_inv in Hrd as (store & _ & _ & Hvis & Hlab).
  pose proof (clampPass_movedOnly (bounds this) (seq 0 (length store)) store)
    as Hmv.
  pose proof (Forall2_length _ _ _ Hmv) as Hlen.
  exists (clampPass (bounds this) (seq 0 (length store)) store).
  eexists. split; [| split; [reflexivity |]].
  - rewrite Hlab. unfold resolveLabels, collisionPass. by rewrite <- Hlen.
  - split; [apply sortBy_Permutation |]. split.
    + by rewrite Hlab, resolveLabels_length.
    + apply Forall_forall. intros l Hl.
      apply list_elem_of_lookup in Hl as [k Hk].
      destruct (Forall2_lookup_r _ _ _ _ _ Hmv Hk) as (l0 & Hl0 & (-> & _)).
      rewrite Forall_lookup in Hvis. simpl. eauto.
Qed.

(** X11: no two visible labels of the render data intersect, whatever
    their priorities. *)
Theorem visible_labels_disjoint (E : Externals) (this : PointsWithLabels)
    (rd : RenderData) (i j : nat) (li lj : ScatterLabel.t) :
  renderData E this = Some rd ->
  i <> j ->
  rd_labels rd !! i = Some li ->
  rd_labels rd !! j = Some lj ->
  ScatterLabel.isHidden li = false ->
  ScatterLabel.isHidden lj = false ->
  Bounds.intersects (ScatterLabel.bounds li) (ScatterLabel.bounds lj) = false.
Proof.
  intros Hrd Hne Hi Hj Hvi Hvj.
  destruct (renderData_collide E this rd Hrd)
    as (clamped & order & Hlab & _ & Hperm & Hlen & _).
  pose proof (collide_hiddenOnly order clamped) as Hfr.
  rewrite <- Hlab in Hfr.
  assert (i < length clamped)%nat as Hilt
    by (rewrite <- Hlen; eapply lookup_lt_Some; eauto).
  assert (j < length clamped)%nat as Hjlt
    by (rewrite <- Hlen; eapply lookup_lt_Some; eauto).
  apply list_lookup_total_correct in Hi, Hj. subst li lj.
  destruct (Bounds.intersects (ScatterLabel.bounds (rd_labels rd !!! i))
              (ScatterLabel.bounds (rd_labels rd !!! j))) eqn:Hint;
    [exfalso | reflexivity].
  assert (i ∈ order) as Hiin by (rewrite Hperm; apply elem_of_seq; lia).
  assert (j ∈ order) as Hjin by (rewrite Hperm; apply elem_of_seq; lia).
  destruct (list_elem_of_split _ _ Hiin) as (l1 & l2 & Horder).
  rewrite Horder in Hjin.
  rewrite elem_of_app, elem_of_cons in Hjin.
  destruct Hjin as [Hj1|[Hj1|Hj2]]; [| congruence |].
  - destruct (list_elem_of_split _ _ Hj1) as (a & b & ->).
    rewrite <- app_assoc in Horder. simpl in Horder.
    assert (ScatterLabel.isHidden (rd_labels rd !!! i) = true) as Habs;
      [| congruence].
    rewrite Hlab, Horder. apply collide_hides.
    + rewrite elem_of_app, elem_of_cons. auto.
    + exact Hilt.
    + rewrite <- !(hiddenOnly_same_bounds _ _ _ Hfr).
      by rewrite intersects_sym.
    + by rewrite <- Horder, <- Hlab.
  - assert (ScatterLabel.isHidden (rd_labels rd !!! j) = true) as Habs;
      [| congruence].
    rewrite Hlab, Horder. apply collide_hides.
    + exact Hj2.
    + exact Hjlt.
    + by rewrite <- !(hiddenOnly_same_bounds _ _ _ Hfr).
    + by rewrite <- Horder, <- Hlab.
Qed.

Lemma visible_labels_disjoint_witness :
  Bounds.intersects
    (ScatterLabel.bounds (rd_labels sampleRenderData !!! 0%nat))
    (ScatterLabel.bounds (rd_labels sampleRenderData !!! 2%nat)) = false.
Proof.
  apply (visible_labels_disjoint sampleExternals (mount sampleProps)
           sampleRenderData 0%nat 2%nat);
    first [lia | vm_compute; reflexivity].
Defined.

(** A label that the inner loop hides is a later label that intersects
    [l1]. *)
Lemma collideWith_hidden_reason (l1 : nat) (later : list nat)
    (store : list ScatterLabel.t) (j : nat) :
  ScatterLabel.isHidden (collideWith l1 later store !!! j) = true ->
  ScatterLabel.isHidden (store !!! j) = false ->
  j ∈ later
  /\ Bounds.intersects (ScatterLabel.bounds (store !!! l1))
       (ScatterLabel.bounds (store !!! j)) = true.
Proof.
  revert store. induction later as [|l2 later IH]; intros store Hhid Hvis;
    simpl in Hhid.
  - congruence.
  - destruct (ScatterLabel.isHidden (store !!! l2)) eqn:H2.
    { destruct (IH store Hhid Hvis). split; [by right | assumption]. }
    destruct (Bounds.intersects (ScatterLabel.bounds (store !!! l1))
                (ScatterLabel.bounds (store !!! l2))) eqn:Hint.
    2: { destruct (IH store Hhid Hvis). split; [by right | assumption]. }
    destruct (decide (j = l2)) as [->|Hne].
    { split; [by left | exact Hint]. }
    assert (Forall2 hiddenOnly store (hide l2 store)) as Hfr
      by (apply (alter_related hiddenOnly); apply hide_hiddenOnly).
    destruct (IH (hide l2 store) Hhid) as [Hin Hi].
    + unfold hide. by rewrite list_lookup_total_alter_ne.
    + split; [by right |].
      by rewrite !(hiddenOnly_same_bounds _ _ _ Hfr) in Hi.
Qed.

(** A label that the loops hide intersects a label before it in the order
    that is visible in the end. *)
Lemma collide_hidden_reason (labels : list nat) (store : list ScatterLabel.t)
    (j : nat) :
  NoDup labels ->
  ScatterLabel.isHidden (collide labels store !!! j) = true ->
  ScatterLabel.isHidden (store !!! j) = false ->
  exists before i later,
    labels = before ++ i :: later
    /\ j ∈ later
    /\ ScatterLabel.isHidden (collide labels store !!! i) = false
    /\ Bounds.intersects (ScatterLabel.bounds (store !!! i))
         (ScatterLabel.bounds (store !!! j)) = true.
Proof.
  revert store.
  induction labels as [|l1 later IH]; intros store Hnd Hhid Hvis;
    simpl in Hhid.
  - congruence.
  - apply NoDup_cons in Hnd as [Hnot Hnd]. simpl.
    destruct (ScatterLabel.isHidden (store !!! l1)) eqn:H1.
    { destruct (IH store Hnd Hhid Hvis) as (b & i & c & -> & Hj & Hi & Hint).
      exists (l1 :: b), i, c. auto. }
    destruct (ScatterLabel.isHidden (collideWith l1 later store !!! j))
      eqn:Hj1.
    + destruct (collideWith_hidden_reason _ _ _ _ Hj1 Hvis) as [Hin Hint].
      exists [], l1, later. repeat split; try assumption.
      rewrite collide_other by assumption.
      by rewrite collideWith_other.
    + pose proof (collideWith_hiddenOnly l1 later store) as Hfr.
      destruct (IH _ Hnd Hhid Hj1) as (b & i & c & -> & Hj & Hi & Hint).
      exists (l1 :: b), i, c. repeat split; try assumption.
      by rewrite !(hiddenOnly_same_bounds _ _ _ Hfr) in Hint.
Qed.

(** X12: no label is hidden without cause: a hidden label of the render
    data intersects a visible label whose priority is not lower. *)
Theorem hidden_label_has_cause (E : Externals) (this : PointsWithLabels)
    (rd : RenderData) (j : nat) (lj : ScatterLabel.t) :
  renderData E this = Some rd ->
  rd_labels rd !! j = Some lj ->
  ScatterLabel.isHidden lj = true ->
  exists i li,
    rd_labels rd !! i = Some li
    /\ ScatterLabel.isHidden li = false
    /\ labelPriority (rd_series rd) lj <= labelPriority (rd_series rd) li
    /\ Bounds.intersects (ScatterLabel.bounds li) (ScatterLabel.bounds lj)
       = true.
Proof.
  intros Hrd Hj Hhid.
  destruct (renderData_collide E this rd Hrd)
    as (clamped & order & Hlab & Horder & Hperm & Hlen & Hvis).
  pose proof (collide_hiddenOnly order clamped) as Hfr.
  rewrite <- Hlab in Hfr.
  assert (j < length clamped)%nat as Hjlt
    by (rewrite <- Hlen; eapply lookup_lt_Some; eauto).
  apply list_lookup_total_correct in Hj. subst lj.
  assert (NoDup order) as Hnd by (rewrite Hperm; apply NoDup_seq).
  rewrite Hlab in Hhid.
  destruct (collide_hidden_reason order clamped j Hnd Hhid)
    as (before & i & later & Hsplit & Hjin & Hi & Hint).
  { destruct (lookup_lt_is_Some_2 clamped j Hjlt) as [l0 Hl0].
    rewrite (list_lookup_total_correct _ _ _ Hl0).
    rewrite Forall_lookup in Hvis. eauto. }
  assert (i ∈ order) as Hiin
    by (rewrite Hsplit, elem_of_app, elem_of_cons; auto).
  rewrite Hperm in Hiin. apply elem_of_seq in Hiin as [_ Hilt].
  simpl in Hilt. rewrite <- Hlen in Hilt.
  destruct (lookup_lt_is_Some_2 _ _ Hilt) as [li Hli].
  exists i, li. split; [exact Hli |].
  apply list_lookup_total_correct in Hli. subst li.
  rewrite <- Hlab in Hi. split; [exact Hi |]. split.
  - pose proof (sortBy_sorted
                  (fun l => - labelPriority (rd_series rd) (clamped !!! l))
                  (seq 0 (length clamped))) as Hs.
    fold (labelsByPriority (rd_series rd) (seq 0 (length clamped)) clamped)
      in Hs.
    rewrite <- Horder, Hsplit in Hs.
    apply StronglySorted_app_1_r, StronglySorted_inv in Hs as [_ Hall].
    rewrite Forall_forall in Hall. specialize (Hall j Hjin). simpl in Hall.
    rewrite (hiddenOnly_priority _ _ _
               (related_lookup_total hiddenOnly _ _ i Hfr)).
    rewrite (hiddenOnly_priority _ _ _
               (related_lookup_total hiddenOnly _ _ j Hfr)).
    lra.
  - by rewrite !(hiddenOnly_same_bounds _ _ _ Hfr).
Qed.

Lemma hidden_label_has_cause_witness :
  renderData sampleExternals (mount crowdedProps) = Some crowdedRenderData
  /\ ScatterLabel.isHidden (rd_labels crowdedRenderData !!! 0%nat) = true
  /\ exists i li,
       rd_labels crowdedRenderData !! i = Some li
       /\ ScatterLabel.isHidden li = false
       /\ labelPriority (rd_series crowdedRenderData)
            (rd_labels crowdedRenderData !!! 0%nat)
          <= labelPriority (rd_series crowdedRenderData) li
       /\ Bounds.intersects (ScatterLabel.bounds li)
            (ScatterLabel.bounds (rd_labels crowdedRenderData !!! 0%nat))
          = true.
Proof.
  assert (renderData sampleExternals (mount crowdedProps)
          = Some crowdedRenderData) as H by (vm_compute; reflexivity).
  assert (ScatterLabel.isHidden (rd_labels crowdedRenderData !!! 0%nat) = true)
    as Hh by (vm_compute; reflexivity).
  split; [exact H |]. split; [exact Hh |].
  apply (hidden_label_has_cause sampleExternals (mount crowdedProps)
           crowdedRenderData 0%nat _ H); [| exact Hh].
  vm_compute. reflexivity.
Defined.

(** ** The clamp on the render data *)







(** X14: the resolver leaves the box of a label that lies within the plot
    (up to the tolerance of one pixel) where it is. *)
Theorem fitting_label_keeps_box (bounds : Bounds.t)
    (renderData : list ScatterRenderSeries.t) (allLabels : list nat)
    (store : list ScatterLabel.t) (k : nat) (l : ScatterLabel.t) :
  store !! k = Some l ->
  fits bounds (ScatterLabel.bounds l) ->
  exists l',
    resolveLabels bounds renderData allLabels store !! k = Some l'
    /\ ScatterLabel.bounds l' = ScatterLabel.bounds l.
Proof.
  intros Hk Hfit.
  assert (clampPass bounds allLabels store !! k = Some l) as Hc.
  { unfold clampPass. revert store Hk.
    induction allLabels as [|i ids IH]; intros store Hk; simpl;
      [exact Hk |].
    apply IH. destruct (decide (i = k)) as [->|Hne].
    - rewrite list_lookup_alter_eq, Hk. simpl. f_equal.
      by apply clampLabel_fits.
    - by rewrite list_lookup_alter_ne. }
  destruct (resolveLabels_frame bounds renderData allLabels store)
    as (_ & _ & Hfr).
  destruct (Forall2_lookup_l _ _ _ _ _ Hfr Hc) as (l' & Hl' & Hh).
  exists l'. split; [exact Hl' | by apply hiddenOnly_bounds].
Qed.

Lemma fitting_label_keeps_box_witness :
  exists l',
    resolveLabels plot100 [plainSeries "s"] [0%nat; 1%nat; 2%nat] stacked
      !! 1%nat = Some l'
    /\ ScatterLabel.bounds l' = Bounds.mk 10 10 20 10.
Proof.
  apply (fitting_label_keeps_box plot100 [plainSeries "s"]
           [0%nat; 1%nat; 2%nat] stacked 1%nat
           (endLabelAt "B" 12 (Bounds.mk 10 10 20 10))).
  - reflexivity.
  - repeat split; vm_compute; discriminate.
Defined.

(** ** The name label of the hovered series *)

(** An element whose key is strictly below all others comes first. *)
Lemma sortBy_head_least {A : Type} `{!EqDecision A} (f : A -> Q)
    (l : list A) (e : A) :
  NoDup l -> e ∈ l ->
  (forall x, x ∈ l -> x <> e -> f e < f x) ->
  head (sortBy f l) = Some e.
Proof.
  intros Hnd He Hleast.
  assert (NoDup (sortBy f l)) as Hnds by (by rewrite sortBy_Permutation).
  destruct (sortBy f l) as [|h rest] eqn:Hsort.
  { apply (f_equal length) in Hsort. unfold sortBy in Hsort.
    rewrite length_sortByWith in Hsort.
    apply length_zero_iff_nil in Hsort. subst l. by apply elem_of_nil in He. }
  simpl. f_equal. destruct (decide (h = e)) as [|Hne]; [assumption |].
  exfalso.
  assert (h ∈ l) as Hh.
  { rewrite <- (sortBy_Permutation f l), Hsort. left. }
  destruct (sortBy_before f l e h He Hh (Hleast h Hh Hne))
    as (l1 & l2 & Hsplit & Hin).
  rewrite Hsort in Hsplit. destruct l1 as [|h' l1]; simpl in Hsplit.
  - injection Hsplit as ? _. contradiction.
  - injection Hsplit as <- Hrest.
    apply NoDup_cons in Hnds as [Hnot _]. apply Hnot.
    rewrite Hrest, elem_of_app, elem_of_cons. auto.
Qed.

Section LabelOwners.
Context (E : Externals) (this : PointsWithLabels).

(** Every label of the store is listed by a series. *)
Lemma label_has_owner (rd : RenderData) (id : nat) (l : ScatterLabel.t) :
  renderData E this = Some rd ->
  rd_labels rd !! id = Some l ->
  exists i s,
    rd_series rd !! i = Some s /\ id ∈ ScatterRenderSeries.allLabels s.
Proof.
  intros Hrd Hl.
  apply renderData_inv in Hrd as (ird & _ & Hfrom).
  apply renderDataFrom_inv in Hfrom as (store & _ & Hall & _ & Hlab).
  assert (id ∈ concat (ScatterRenderSeries.allLabels <$> rd_series rd))
    as Hin.
  { rewrite Hall. apply elem_of_seq.
    apply lookup_lt_Some in Hl. rewrite Hlab, resolveLabels_length in Hl.
    lia. }
  apply list_elem_of_In, in_concat in Hin as (ids & Hids & Hid).
  apply list_elem_of_In, list_elem_of_fmap in Hids as (s & -> & Hs).
  apply list_elem_of_lookup in Hs as [i Hi].
  exists i, s. split; [exact Hi | by apply list_elem_of_In].
Qed.

(** The labels made before the end label are year labels. *)
Lemma front_label_kind (k : nat) (s : ScatterRenderSeries.t)
    (l : ScatterLabel.t) :
  l ∈ option_list (makeStartLabel E this k s) ++ makeMidLabels E this k s ->
  ScatterLabel.isEnd l = false
  /\ ScatterLabel.fontSize l = (if isSubtleForeground this then 8 else 9).
Proof.
  intros Hl. apply elem_of_app in Hl as [Hl|Hl].
  - destruct (makeStartLabel E this k s) as [ls|] eqn:Hs; simpl in Hl.
    + apply list_elem_of_singleton in Hl as ->.
      pose proof (makeStartLabel_visible E this _ _ _ Hs) as [_ Hne].
      by apply makeStartLabel_inv in Hs as (? & _ & _ & _ & _ & _ & _ & ?).
    + by apply elem_of_nil in Hl.
  - apply list_elem_of_lookup in Hl as [j Hj].
    pose proof (makeMidLabels_visible E this k s) as Hv.
    rewrite Forall_lookup in Hv. destruct (Hv _ _ Hj) as [_ Hne].
    by apply makeMidLabels_lookup in Hj as (? & _ & _ & _ & _ & _ & _ & ?).
Qed.

(** A label that a series lists: it refers to the series, and it is the
    end label of the series or a year label of font size 8 or 9. *)
Lemma listed_label_kind (rd : RenderData) (i : nat)
    (s : ScatterRenderSeries.t) (id : nat) (l : ScatterLabel.t) :
  renderData E this = Some rd ->
  rd_series rd !! i = Some s ->
  id ∈ ScatterRenderSeries.allLabels s ->
  rd_labels rd !! id = Some l ->
  ScatterLabel.series l = i
  /\ (ScatterRenderSeries.endLabel s = Some id /\ ScatterLabel.isEnd l = true
      \/ ScatterRenderSeries.endLabel s <> Some id
         /\ ScatterLabel.isEnd l = false
         /\ ScatterLabel.fontSize l
            = (if isSubtleForeground this then 8 else 9)).
Proof.
  intros Hrd Hi Hid Hl.
  destruct (series_labels_inv E this rd i s Hrd Hi)
    as (s0 & n & lend & _ & _ & _ & _ & He & _ & _ & Hend & Hall & Hlook).
  rewrite Hall in Hid. apply elem_of_seq in Hid as [Hge Hlt].
  set (new := option_list (makeStartLabel E this i s0)
              ++ makeMidLabels E this i s0 ++ [lend]) in *.
  assert (id - n < length new)%nat as Hk by lia.
  apply lookup_lt_is_Some_2 in Hk as [l0 Hl0].
  destruct (Hlook _ _ Hl0) as (l1 & Hl1 & Hw).
  replace (n + (id - n))%nat with id in Hl1 by lia.
  assert (l1 = l) as -> by congruence.
  destruct Hw as (_ & Wf & _ & _ & _ & Ws & _ & _ & We).
  split.
  { rewrite Ws. eapply new_labels_series; [exact He |].
    apply list_elem_of_lookup. eauto. }
  rewrite Hend, Wf, We. unfold new in Hl0, Hlt.
  rewrite app_assoc in Hl0, Hlt. rewrite length_app in Hlt. simpl in Hlt.
  set (front := option_list (makeStartLabel E this i s0)
                ++ makeMidLabels E this i s0) in *.
  destruct (decide (id - n < length front)%nat) as [Hfront|Hlast].
  - right. rewrite lookup_app_l in Hl0 by assumption.
    split; [intros [= Heq]; lia |].
    apply (front_label_kind i s0). apply list_elem_of_lookup. eauto.
  - left. assert (id - n = length front)%nat as Hidn by lia.
    rewrite Hidn, lookup_app_r, Nat.sub_diag in Hl0 by lia.
    injection Hl0 as <-.
    split; [f_equal; lia |].
    by apply makeEndLabel_visible in He as [_ ?].
Qed.

End LabelOwners.

(** X15: when a single series of the render data is hovered and the font
    sizes of all labels lie between 0 and 9000, the end label (the name)
    of the hovered series has the highest priority of all labels and is
    never hidden. *)
Theorem hovered_name_label_visible (E : Externals) (this : PointsWithLabels)
    (rd : RenderData) (i : nat) (s : ScatterRenderSeries.t) :
  renderData E this = Some rd ->
  rd_series rd !! i = Some s ->
  ScatterRenderSeries.isHover s = true ->
  (forall j s', rd_series rd !! j = Some s' -> j <> i ->
                ScatterRenderSeries.isHover s' = false) ->
  (forall l, l ∈ rd_labels rd ->
             0 <= ScatterLabel.fontSize l /\ ScatterLabel.fontSize l < 9000) ->
  exists e l,
    ScatterRenderSeries.endLabel s = Some e
    /\ rd_labels rd !! e = Some l
    /\ ScatterLabel.isEnd l = true
    /\ ScatterLabel.isHidden l = false.
Proof.
  intros Hrd Hi Hhover Hothers Hfonts.
  destruct (series_labels_inv E this rd i s Hrd Hi)
    as (s0 & n & lend & _ & _ & _ & _ & _ & _ & _ & Hend & Hall & Hlook).
  set (front := option_list (makeStartLabel E this i s0)
                ++ makeMidLabels E this i s0) in *.
  rewrite app_assoc in Hall, Hlook. fold front in Hall, Hlook.
  destruct (Hlook (length front) lend) as (le & Hle & _).
  { by rewrite lookup_app_r, Nat.sub_diag by lia. }
  set (e := (n + length front)%nat) in *.
  assert (e ∈ ScatterRenderSeries.allLabels s) as Hein.
  { rewrite Hall. apply elem_of_seq. rewrite length_app. simpl.
    unfold e. lia. }
  destruct (listed_label_kind E this rd i s e le Hrd Hi Hein Hle)
    as [Hse [[_ Hee]|[Hcontra _]]]; [| congruence].
  exists e, le. split; [exact Hend |]. split; [exact Hle |].
  split; [exact Hee |].
  destruct (renderData_collide E this rd Hrd)
    as (clamped & order & Hlab & Horder & Hperm & Hlen & Hvis).
  pose proof (collide_hiddenOnly order clamped) as Hfr.
  rewrite <- Hlab in Hfr.
  assert (e < length clamped)%nat as Helt
    by (rewrite <- Hlen; eapply lookup_lt_Some; eauto).
  assert (head order = Some e) as Hhead.
  { rewrite Horder. unfold labelsByPriority.
    apply sortBy_head_least; [apply NoDup_seq | apply elem_of_seq; lia |].
    intros x Hx Hne. apply elem_of_seq in Hx as [_ Hxlt]. simpl in Hxlt.
    rewrite <- Hlen in Hxlt.
    destruct (lookup_lt_is_Some_2 _ _ Hxlt) as [lx Hlx].
    rewrite <- (hiddenOnly_priority _ _ _
                  (related_lookup_total hiddenOnly _ _ e Hfr)).
    rewrite <- (hiddenOnly_priority _ _ _
                  (related_lookup_total hiddenOnly _ _ x Hfr)).
    rewrite (list_lookup_total_correct _ _ _ Hle).
    rewrite (list_lookup_total_correct _ _ _ Hlx).
    assert (0 <= ScatterLabel.fontSize le) as Hfe.
    { apply Hfonts. apply list_elem_of_lookup. eauto. }
    assert (ScatterLabel.fontSize lx < 9000) as Hfx.
    { apply Hfonts. apply list_elem_of_lookup. eauto. }
    destruct (label_has_owner E this rd x lx Hrd Hlx) as (j & s' & Hj & Hxin).
    destruct (listed_label_kind E this rd j s' x lx Hrd Hj Hxin Hlx)
      as [Hsx Hkind].
    unfold labelPriority. rewrite Hse, Hsx, Hee.
    rewrite (list_lookup_total_correct _ _ _ Hi).
    rewrite (list_lookup_total_correct _ _ _ Hj).
    rewrite Hhover.
    destruct (decide (j = i)) as [->|Hji].
    - assert (s' = s) as -> by congruence. rewrite Hhover.
      destruct Hkind as [[Hsome _]|(_ & -> & Hsize)].
      { exfalso. apply Hne. congruence. }
      rewrite Hsize.
      destruct (ScatterRenderSeries.isFocus s), (isSubtleForeground this);
        lra.
    - rewrite (Hothers j s' Hj Hji).
      destruct (ScatterRenderSeries.isFocus s),
        (ScatterRenderSeries.isFocus s'), (ScatterLabel.isEnd lx); lra. }
  destruct order as [|first later]; [discriminate |].
  simpl in Hhead. injection Hhead as ->.
  assert (NoDup (e :: later)) as Hnd by (rewrite Hperm; apply NoDup_seq).
  apply NoDup_cons in Hnd as [Hnot _].
  apply list_lookup_total_correct in Hle. rewrite <- Hle, Hlab.
  apply collide_first; [exact Hnot |].
  destruct (lookup_lt_is_Some_2 clamped e Helt) as [l0 Hl0].
  rewrite (list_lookup_total_correct _ _ _ Hl0).
  rewrite Forall_lookup in Hvis. eauto.
Qed.

Lemma hovered_name_label_visible_witness :
  renderData sampleExternals (mount hoveredProps) = Some hoveredRenderData
  /\ ScatterRenderSeries.key (rd_series hoveredRenderData !!! 0%nat) = "a"
  /\ exists e l,
       ScatterRenderSeries.endLabel (rd_series hoveredRenderData !!! 0%nat)
       = Some e
       /\ rd_labels hoveredRenderData !! e = Some l
       /\ ScatterLabel.isEnd l = true
       /\ ScatterLabel.isHidden l = false.
Proof.
  assert (renderData sampleExternals (mount hoveredProps)
          = Some hoveredRenderData) as H by (vm_compute; reflexivity).
  split; [exact H |]. split; [reflexivity |].
  apply (hovered_name_label_visible sampleExternals (mount hoveredProps)
           hoveredRenderData 0%nat _ H).
  - vm_compute. reflexivity.
  - vm_compute. reflexivity.
  - intros j s' Hj Hne. destruct j as [|[|j]]; [congruence | |].
    + vm_compute in Hj. injection Hj as <-. reflexivity.
    + vm_compute in Hj. discriminate.
  - apply Forall_forall, Forall_lookup. intros k l Hk.
    destruct k as [|[|k]]; vm_compute in Hk;
      [injection Hk as <- | injection Hk as <- | discriminate];
      split; vm_compute; first [reflexivity | discriminate].
Defined.

(** ** The pointer handlers *)

Section SortHead.
Context {A K : Type} (leb : K -> K -> bool) (f : A -> K).
Hypothesis leb_total : forall a b, leb a b = true \/ leb b a = true.
Hypothesis leb_trans :
  forall a b c, leb a b = true -> leb b c = true -> leb a c = true.

(** The first element of the sorted list is the first element of the list
    whose key is least. *)
Lemma sortByWith_head (l : list A) (a : A) (rest : list A) :
  sortByWith leb f l = a :: rest ->
  exists l1 l2,
    l = l1 ++ a :: l2
    /\ (forall b, b ∈ l1 -> leb (f b) (f a) = false)
    /\ (forall b, b ∈ l -> leb (f a) (f b) = true).
Proof.
  revert a rest. induction l as [|x l IH]; intros a rest Hsort;
    simpl in Hsort; [discriminate |].
  destruct (sortByWith leb f l) as [|h t] eqn:Hl; simpl in Hsort.
  - injection Hsort as <- <-.
    apply (f_equal length) in Hl. rewrite length_sortByWith in Hl.
    apply length_zero_iff_nil in Hl. subst l.
    exists [], []. split; [reflexivity |]. split.
    + intros b Hb. by apply elem_of_nil in Hb.
    + intros b Hb. apply list_elem_of_singleton in Hb as ->.
      by destruct (leb_total (f x) (f x)).
  - destruct (IH h t eq_refl) as (l1 & l2 & -> & Hbefore & Hall).
    destruct (leb (f x) (f h)) eqn:Hxh.
    + injection Hsort as <- <-.
      exists [], (l1 ++ h :: l2). split; [reflexivity |]. split.
      * intros b Hb. by apply elem_of_nil in Hb.
      * intros b Hb. apply elem_of_cons in Hb as [->|Hb].
        -- by destruct (leb_total (f x) (f x)).
        -- eapply leb_trans; [exact Hxh | by apply Hall].
    + injection Hsort as <- <-.
      exists (x :: l1), l2. split; [reflexivity |]. split.
      * intros b Hb. apply elem_of_cons in Hb as [->|Hb]; auto.
      * intros b Hb. apply elem_of_cons in Hb as [->|Hb]; [| by apply Hall].
        destruct (leb_total (f h) (f x)); congruence.
Qed.

End SortHead.

Lemma undefinedLast_total (a b : option Q) :
  undefinedLast a b = true \/ undefinedLast b a = true.
Proof.
  destruct a as [p|], b as [q|]; simpl; auto. apply Qle_bool_total.
Qed.

Lemma undefinedLast_trans (a b c : option Q) :
  undefinedLast a b = true -> undefinedLast b c = true ->
  undefinedLast a c = true.
Proof.
  destruct a as [p|], b as [q|], c as [r|]; simpl; try congruence.
  apply Qle_bool_trans.
Qed.

(** X16: when the render data have a series, [onMouseMove] sets the hover
    key to the key of a series that is at least as close to the mouse as
    every series whose distance is defined, and strictly closer than every
    series before it in the render data: ties go to the series that comes
    first, and a series without a distance is only chosen when no series
    has one. *)
Theorem onMouseMove_closest (E : Externals) (this : PointsWithLabels)
    (mouse : Vector2.t) (rd : RenderData) :
  renderData E this = Some rd ->
  rd_series rd <> [] ->
  exists before s after,
    rd_series rd = before ++ s :: after
    /\ hoverKey (fst (onMouseMove E this mouse))
       = Some (ScatterRenderSeries.key s)
    /\ (forall s' d',
          s' ∈ rd_series rd ->
          mouseDistance E this mouse s' = Some d' ->
          exists d, mouseDistance E this mouse s = Some d /\ d <= d')
    /\ (forall s',
          s' ∈ before ->
          exists d,
            mouseDistance E this mouse s = Some d
            /\ forall d', mouseDistance E this mouse s' = Some d' -> d < d').
Proof.
  intros Hrd Hne. unfold onMouseMove. rewrite Hrd. simpl.
  destruct (sortByWith undefinedLast (mouseDistance E this mouse)
              (rd_series rd)) as [|s rest] eqn:Hsort.
  { apply (f_equal length) in Hsort. rewrite length_sortByWith in Hsort.
    by apply length_zero_iff_nil in Hsort. }
  destruct (sortByWith_head undefinedLast (mouseDistance E this mouse)
              undefinedLast_total undefinedLast_trans _ _ _ Hsort)
    as (before & after & Hsplit & Hbefore & Hall).
  exists before, s, after. split; [exact Hsplit |].
  split; [reflexivity |]. split.
  - intros s' d' Hs' Hd'. specialize (Hall s' Hs'). rewrite Hd' in Hall.
    destruct (mouseDistance E this mouse s) as [d|]; simpl in Hall;
      [| discriminate].
    exists d. split; [reflexivity | by apply Qle_bool_iff].
  - intros s' Hs'. specialize (Hbefore s' Hs').
    destruct (mouseDistance E this mouse s) as [d|],
      (mouseDistance E this mouse s') as [d'|]; simpl in Hbefore;
      try discriminate.
    + exists d. split; [reflexivity |]. intros ? [= <-].
      destruct (Qlt_le_dec d d') as [|Hle]; [assumption |].
      apply Qle_bool_iff in Hle. congruence.
    + exists d. split; [reflexivity |]. discriminate.
Qed.

Lemma onMouseMove_closest_witness :
  renderData sampleExternals (mount plainProps) = Some plainRenderData
  /\ exists before s after,
       rd_series plainRenderData = before ++ s :: after
       /\ hoverKey (fst (onMouseMove sampleExternals (mount plainProps)
                           (Vector2.mk 80 21)))
          = Some (ScatterRenderSeries.key s).
Proof.
  assert (renderData sampleExternals (mount plainProps)
          = Some plainRenderData) as H by (vm_compute; reflexivity).
  split; [exact H |].
  destruct (onMouseMove_closest sampleExternals (mount plainProps)
              (Vector2.mk 80 21) plainRenderData H)
    as (before & s & after & H1 & H2 & _).
  - vm_compute. discriminate.
  - exists before, s, after. split; [exact H1 | exact H2].
Defined.

Section Projections.
Context (E : Externals) (this : PointsWithLabels).

(** What holds of every input series and is kept by the marking and the
    labelling holds of the series of the render data, one for one. *)
Lemma renderData_projection {B : Type} (g : ScatterRenderSeries.t -> B)
    (h : ScatterSeries.t -> B) (rd : RenderData) :
  (forall i s0 st s st',
     labelSeries E this i (markSeries this s0) st = Some (s, st') ->
     g s = g s0) ->
  (forall d s0, initialRenderSeries E this d = Some s0 -> g s0 = h d) ->
  renderData E this = Some rd ->
  g <$> rd_series rd ≡ₚ h <$> data this.
Proof.
  intros Hg Hh Hrd.
  apply renderData_inv in Hrd as (ird & Hird & Hrd).
  apply renderDataFrom_inv in Hrd as (store & Hlab & _).
  unfold initialRenderData in Hird.
  destruct (mapM (initialRenderSeries E this) (data this)) as [l|] eqn:Hm;
    [| discriminate].
  simpl in Hird. injection Hird as <-.
  assert (g <$> rd_series rd
          = g <$> sortBy (fun d => - ScatterRenderSeries.size d)
                    (sortBy ScatterRenderSeries.size l)) as ->.
  { apply list_eq_same_length with (length (rd_series rd)).
    - rewrite length_fmap. apply labelEach_length in Hlab.
      by rewrite Hlab, length_fmap.
    - by rewrite length_fmap.
    - intros i x y Hi Hx Hy.
      apply list_lookup_fmap_Some in Hx as (s & -> & Hs).
      apply list_lookup_fmap_Some in Hy as (s0 & -> & Hs0).
      destruct (labelEach_lookup _ _ _ _ _ _ _ _ _ Hlab Hs)
        as (s1 & st & st' & Hs1 & Hls & _).
      apply list_lookup_fmap_Some in Hs1 as (s2 & -> & Hs2).
      assert (s2 = s0) as -> by congruence.
      eapply Hg. exact Hls. }
  rewrite !sortBy_Permutation.
  assert (g <$> l = h <$> data this) as ->; [| reflexivity].
  clear Hlab. apply mapM_Some_1 in Hm.
  induction Hm as [|d s ds ss Hd Hds IH]; [reflexivity |].
  rewrite !fmap_cons, IH. f_equal. by apply Hh.
Qed.

Lemma renderData_value_counts (rd : RenderData) :
  renderData E this = Some rd ->
  (fun s => length (ScatterRenderSeries.values s)) <$> rd_series rd
  ≡ₚ (fun d => length (ScatterSeries.values d)) <$> data this.
Proof.
  apply renderData_projection.
  - intros i s0 st s st' Hls.
    by apply labelSeries_inv in Hls as (? & ? & _ & _ & ->).
  - intros d s0 Hd. unfold initialRenderSeries in Hd.
    destruct (last (map (initialRenderValue E this d)
                      (ScatterSeries.values d))); [| discriminate].
    simpl in Hd. injection Hd as <-. simpl. apply length_map.
Qed.

Lemma renderData_length (rd : RenderData) :
  renderData E this = Some rd ->
  length (rd_series rd) = length (data this).
Proof.
  intros Hrd. apply renderData_value_counts in Hrd.
  apply Permutation_length in Hrd. by rewrite !length_fmap in Hrd.
Qed.

Lemma minimum_None (l : list Q) : minimum l = None <-> l = [].
Proof. destruct l; simpl; split; congruence. Qed.

(** On a connected chart the distance of a series to the mouse is defined
    exactly when the series has a segment. *)
Lemma mouseDistance_connected (mouse : Vector2.t)
    (s : ScatterRenderSeries.t) :
  isConnected this = true ->
  is_Some (mouseDistance E this mouse s)
  <-> (2 <= length (ScatterRenderSeries.values s))%nat.
Proof.
  intros Hc. unfold mouseDistance. rewrite Hc.
  rewrite <- not_eq_None_Some, minimum_None, <- length_zero_iff_nil.
  rewrite length_imap, length_take. lia.
Qed.

End Projections.

(** X17: on a connected chart (some series has more than one value) the
    hover key that [onMouseMove] sets is the key of a series with at least
    two values: a series with a single value has no segment, so no
    distance to the mouse, and is never chosen. *)
Theorem connected_hover_has_segment (E : Externals) (this : PointsWithLabels)
    (mouse : Vector2.t) (rd : RenderData) :
  isConnected this = true ->
  renderData E this = Some rd ->
  exists s,
    s ∈ rd_series rd
    /\ hoverKey (fst (onMouseMove E this mouse))
       = Some (ScatterRenderSeries.key s)
    /\ (2 <= length (ScatterRenderSeries.values s))%nat.
Proof.
  intros Hc Hrd.
  assert (exists s', s' ∈ rd_series rd
                     /\ (2 <= length (ScatterRenderSeries.values s'))%nat)
    as (s' & Hs' & Hlen').
  { pose proof Hc as Hex. unfold isConnected in Hex.
    apply existsb_exists in Hex as (d & Hd & Hlt).
    apply Nat.ltb_lt in Hlt.
    assert (length (ScatterSeries.values d)
              ∈ (fun s => length (ScatterRenderSeries.values s))
                  <$> rd_series rd) as Hin.
    { rewrite (renderData_value_counts E this rd Hrd).
      apply list_elem_of_fmap. exists d. split; [reflexivity |].
      by apply list_elem_of_In. }
    apply list_elem_of_fmap in Hin as (s' & Heq & Hs').
    exists s'. split; [exact Hs' | lia]. }
  unfold onMouseMove. rewrite Hrd. simpl.
  destruct (sortByWith undefinedLast (mouseDistance E this mouse)
              (rd_series rd)) as [|s rest] eqn:Hsort.
  { apply (f_equal length) in Hsort. rewrite length_sortByWith in Hsort.
    apply length_zero_iff_nil in Hsort. rewrite Hsort in Hs'.
    by apply elem_of_nil in Hs'. }
  destruct (sortByWith_head undefinedLast (mouseDistance E this mouse)
              undefinedLast_total undefinedLast_trans _ _ _ Hsort)
    as (before & after & Hsplit & _ & Hall).
  exists s. split.
  { rewrite Hsplit, elem_of_app, elem_of_cons. auto. }
  split; [reflexivity |].
  apply (mouseDistance_connected E this mouse s Hc).
  apply (mouseDistance_connected E this mouse s' Hc) in Hlen' as [d' Hd'].
  specialize (Hall s' Hs'). rewrite Hd' in Hall.
  destruct (mouseDistance E this mouse s); [by eexists | discriminate].
Qed.

Lemma connected_hover_has_segment_witness :
  isConnected (mount sampleProps) = true
  /\ renderData sampleExternals (mount sampleProps) = Some sampleRenderData
  /\ hoverKey (fst (onMouseMove sampleExternals (mount sampleProps)
                      (Vector2.mk 80 21)))
     = Some "a".
Proof.
  assert (isConnected (mount sampleProps) = true) as Hc by reflexivity.
  assert (renderData sampleExternals (mount sampleProps)
          = Some sampleRenderData) as H by (vm_compute; reflexivity).
  split; [exact Hc |]. split; [exact H |].
  destruct (connected_hover_has_segment sampleExternals (mount sampleProps)
              (Vector2.mk 80 21) sampleRenderData Hc H)
    as (s & _ & _ & _).
  vm_compute. reflexivity.
Defined.

(** X18: when the props have an [onMouseOver] callback and the input list
    is not empty, [onMouseMove] calls it once, with an input series whose
    key is the new hover key; with an empty input list it clears the hover
    key and calls nothing. *)
Theorem onMouseMove_callback (E : Externals) (this : PointsWithLabels)
    (mouse : Vector2.t) (rd : RenderData) :
  renderData E this = Some rd ->
  props_onMouseOver (props this) = true ->
  (data this <> [] ->
   exists datum,
     snd (onMouseMove E this mouse) = [OnMouseOver datum]
     /\ datum ∈ data this
     /\ hoverKey (fst (onMouseMove E this mouse))
        = Some (ScatterSeries.key datum))
  /\ (data this = [] ->
      snd (onMouseMove E this mouse) = []
      /\ hoverKey (fst (onMouseMove E this mouse)) = None).
Proof.
  intros Hrd Hcb.
  pose proof (renderData_length E this rd Hrd) as Hlen.
  unfold onMouseMove. rewrite Hrd, Hcb. simpl.
  destruct (sortByWith undefinedLast (mouseDistance E this mouse)
              (rd_series rd)) as [|s rest] eqn:Hsort; simpl.
  - apply (f_equal length) in Hsort. rewrite length_sortByWith in Hsort.
    simpl in Hsort. split; [| auto].
    intros Hne. exfalso. apply Hne. apply length_zero_iff_nil. lia.
  - split.
    2: { intros Hnil. apply (f_equal length) in Hsort.
         rewrite length_sortByWith, Hlen, Hnil in Hsort. discriminate. }
    intros _.
    assert (s ∈ rd_series rd) as Hs.
    { apply (elem_of_sortByWith undefinedLast (mouseDistance E this mouse)).
      rewrite Hsort. left. }
    pose proof (renderData_series_key E this rd s Hrd Hs) as Hkey.
    apply list_elem_of_fmap in Hkey as (d & Hkd & Hd).
    destruct (find (fun d0 => String.eqb (ScatterSeries.key d0)
                                (ScatterRenderSeries.key s)) (data this))
      as [datum|] eqn:Hfind.
    + apply find_some in Hfind as [Hin Heq].
      apply String.eqb_eq in Heq.
      exists datum. split; [reflexivity |].
      split; [by apply list_elem_of_In | by rewrite Heq].
    + exfalso. apply list_elem_of_In in Hd.
      pose proof (find_none _ _ Hfind d Hd) as Hno. simpl in Hno.
      rewrite <- Hkd, String.eqb_refl in Hno. discriminate.
Qed.

Lemma onMouseMove_callback_witness :
  renderData sampleExternals (mount plainProps) = Some plainRenderData
  /\ props_onMouseOver (props (mount plainProps)) = true
  /\ length (snd (onMouseMove sampleExternals (mount plainProps)
                    (Vector2.mk 80 21))) = 1%nat.
Proof.
  assert (renderData sampleExternals (mount plainProps)
          = Some plainRenderData) as H by (vm_compute; reflexivity).
  assert (props_onMouseOver (props (mount plainProps)) = true) as Hcb
    by reflexivity.
  split; [exact H |]. split; [exact Hcb |].
  destruct (onMouseMove_callback sampleExternals (mount plainProps)
              (Vector2.mk 80 21) plainRenderData H Hcb) as [Hsome _].
  destruct Hsome as (datum & Hsnd & _); [discriminate |].
  rewrite Hsnd. reflexivity.
Defined.

(** X19: along a run from the mounted component in which the input series
    list is kept, every callback is given data of the list: [onMouseOver]
    an input series, [onSelectEntity] the key of an input series. *)
Theorem callbacks_on_data (E : Externals) (p : PointsWithLabelsProps)
    (es : list Event) :
  Forall (keepsData p) es ->
  Forall (callbackOnData p) (runCallbacks E (mount p) es).
Proof.
  intros Hes.
  assert (props_data (props (mount p)) = props_data p
          /\ hoverKeyPresent (mount p)) as Hinit
    by (split; [reflexivity | exact I]).
  revert Hinit. generalize (mount p).
  induction Hes as [|e es He Hes IH]; intros this [Hdata Hinv]; simpl.
  - constructor.
  - apply Forall_app. split.
    + destruct e as [mouse| | |p']; simpl.
      * unfold onMouseMove.
        destruct (renderData E this) as [rd|] eqn:Hrd; [| constructor].
        simpl. destruct (props_onMouseOver (props this)); [| constructor].
        destruct (head _) as [s|]; [| constructor].
        destruct (find _ (data this)) as [datum|] eqn:Hfind; [| constructor].
        apply find_some in Hfind as [Hin _].
        repeat constructor. simpl. unfold data in Hin.
        rewrite Hdata in Hin. by apply list_elem_of_In.
      * destruct (props_onMouseLeave (props this)); repeat constructor.
      * unfold hoverKeyPresent, data in Hinv.
        destruct (hoverKey this) as [k|]; simpl; [| constructor].
        destruct k as [|c k]; [constructor |].
        repeat constructor. simpl. by rewrite <- Hdata.
      * constructor.
    + apply IH. by apply step_hoverKeyPresent.
Qed.

Lemma callbacks_on_data_witness :
  Forall (keepsData sampleProps)
    [MouseMove (Vector2.mk 80 21); Click; MouseLeave]
  /\ Forall (callbackOnData sampleProps)
       (runCallbacks sampleExternals (mount sampleProps)
          [MouseMove (Vector2.mk 80 21); Click; MouseLeave]).
Proof.
  assert (Forall (keepsData sampleProps)
            [MouseMove (Vector2.mk 80 21); Click; MouseLeave]) as H
    by (repeat constructor).
  split; [exact H |].
  exact (callbacks_on_data sampleExternals sampleProps _ H).
Defined.

(** ** The placement of a mid label *)

(** X20: the mid label at position [k], which annotates the value at
    position [k + 1], is made from the values up to that one only: two
    series with the same flags and as many values that agree on their
    first [k + 2] values get the same mid label at position [k], whatever
    their later values are. *)
Theorem mid_label_ignores_later_values (E : Externals)
    (this : PointsWithLabels) (series k : nat)
    (s s' : ScatterRenderSeries.t) :
  ScatterRenderSeries.isForeground s = ScatterRenderSeries.isForeground s' ->
  ScatterRenderSeries.isHover s = ScatterRenderSeries.isHover s' ->
  length (ScatterRenderSeries.values s)
  = length (ScatterRenderSeries.values s') ->
  take (k + 2) (ScatterRenderSeries.values s)
  = take (k + 2) (ScatterRenderSeries.values s') ->
  makeMidLabels E this series s !! k = makeMidLabels E this series s' !! k.
Proof.
  intros Hfg Hh Hlen Htake. unfold makeMidLabels.
  rewrite Hfg, Hh, Hlen. case_match; [reflexivity |].
  rewrite !list_lookup_imap.
  assert (forall j, (j < k + 2)%nat ->
            ScatterRenderSeries.values s !! j
            = ScatterRenderSeries.values s' !! j) as Hsame.
  { intros j Hj.
    rewrite <- (lookup_take_lt (ScatterRenderSeries.values s) (k + 2) j)
      by assumption.
    rewrite <- (lookup_take_lt (ScatterRenderSeries.values s') (k + 2) j)
      by assumption.
    by rewrite Htake. }
  assert (forall j, (j < k + 2)%nat ->
            ScatterRenderSeries.values s !!! j
            = ScatterRenderSeries.values s' !!! j) as Hsame'.
  { intros j Hj. rewrite !list_lookup_total_alt. by rewrite Hsame. }
  assert (interior (ScatterRenderSeries.values s) !! k
          = interior (ScatterRenderSeries.values s') !! k) as Hint.
  { unfold interior. rewrite Hlen.
    destruct (decide (k < length (ScatterRenderSeries.values s') - 2)%nat).
    - rewrite !lookup_take_lt, !lookup_drop by assumption.
      apply Hsame. lia.
    - by rewrite !lookup_take_ge by lia. }
  rewrite Hint.
  destruct (interior (ScatterRenderSeries.values s') !! k) as [v|];
    [| reflexivity].
  simpl. f_equal. unfold makeMidLabel, yearFontSize.
  rewrite Hfg, !(Hsame' (k + 1)%nat), !(Hsame' (k - 1)%nat) by lia.
  reflexivity.
Qed.

Lemma mid_label_ignores_later_values_witness :
  makeMidLabels sampleExternals (mount sampleProps) 0 sampleFirstSeries
    !! 0%nat
  = makeMidLabels sampleExternals (mount sampleProps) 0 sampleFirstSeriesMoved
      !! 0%nat.
Proof.
  apply (mid_label_ignores_later_values sampleExternals (mount sampleProps)
           0 0 sampleFirstSeries sampleFirstSeriesMoved);
    vm_compute; reflexivity.
Defined.

(** ** What is drawn *)

Section Drawing.
Context (E : Externals) (D : DrawingExternals) (this : PointsWithLabels).

Lemma renderBackgroundLine_no_text (s : ScatterRenderSeries.t) :
  textElements (renderBackgroundLine E D this s) = [].
Proof.
  unfold renderBackgroundLine.
  destruct (negb (isConnected this)); [reflexivity |].
  destruct (length (ScatterRenderSeries.values s) =? 1)%nat; reflexivity.
Qed.

Lemma renderForegroundLine_no_text (s : ScatterRenderSeries.t) :
  textElements (renderForegroundLine E this s) = [].
Proof.
  unfold renderForegroundLine.
  destruct (length (ScatterRenderSeries.values s) =? 1)%nat,
    (ScatterRenderSeries.isFocus s); reflexivity.
Qed.

Lemma lines_no_text (f : ScatterRenderSeries.t -> Element)
    (l : list ScatterRenderSeries.t) :
  (forall s, textElements (f s) = []) ->
  concat (map textElements (f <$> l)) = [].
Proof.
  intros Hf. induction l as [|s l IH]; [reflexivity |].
  rewrite fmap_cons. simpl. by rewrite Hf, IH.
Qed.

(** What an array of labels drawn by [draw] shows is what its visible
    labels are, in order. *)
Lemma label_array_texts (draw : nat -> ScatterLabel.t -> Element)
    (ls : list ScatterLabel.t) :
  (forall i l,
     textElements (draw i l)
     = if ScatterLabel.isHidden l then [] else [draw i l]) ->
  (forall i l,
     ScatterLabel.isHidden l = false ->
     shownText (draw i l) = Some (shownLabel l)) ->
  shownText <$> concat (map textElements (imap draw ls))
  = (fun l => Some (shownLabel l))
      <$> filter (fun l => ScatterLabel.isHidden l = false) ls.
Proof.
  revert draw. induction ls as [|l ls IH]; intros draw Htext Hshown;
    [reflexivity |].
  rewrite imap_cons. simpl. rewrite fmap_app, filter_cons, Htext.
  rewrite (IH (draw ∘ S)) by (intros; apply Htext || by apply Hshown).
  destruct (ScatterLabel.isHidden l) eqn:Hhid.
  - rewrite decide_False by discriminate. reflexivity.
  - rewrite decide_True by reflexivity. simpl. by rewrite Hshown.
Qed.

Lemma group_label_texts {B : Type}
    (draw : B -> list ScatterLabel.t -> list Element)
    (labels : B -> list ScatterLabel.t) (l : list B) :
  (forall s ls,
     shownText <$> concat (map textElements (draw s ls))
     = (fun l => Some (shownLabel l))
         <$> filter (fun l => ScatterLabel.isHidden l = false) ls) ->
  shownText
    <$> concat (map textElements ((fun s => Arr (draw s (labels s))) <$> l))
  = (fun l => Some (shownLabel l))
      <$> filter (fun l => ScatterLabel.isHidden l = false)
            (concat (labels <$> l)).
Proof.
  intros Hdraw. induction l as [|s l IH]; [reflexivity |].
  rewrite !fmap_cons. cbn [map concat].
  rewrite filter_app, !fmap_app. f_equal; [| exact IH].
  cbn [textElements]. apply Hdraw.
Qed.

Lemma background_label_texts (rd : RenderData) :
  shownText <$> concat (map textElements (renderBackgroundLabels this rd))
  = (fun l => Some (shownLabel l))
      <$> filter (fun l => ScatterLabel.isHidden l = false)
            (concat (labelsOf rd <$> backgroundGroups rd)).
Proof.
  unfold renderBackgroundLabels.
  apply (group_label_texts (fun series ls => _ <$> ls)).
  intros s ls. rewrite <- (imap_const _ ls).
  apply label_array_texts.
  - intros i l0. unfold const.
    destruct (ScatterLabel.isHidden l0); reflexivity.
  - intros i l0 Hhid. unfold const. rewrite Hhid. reflexivity.
Qed.

Lemma foreground_label_texts (rd : RenderData) :
  shownText <$> concat (map textElements (renderForegroundLabels rd))
  = (fun l => Some (shownLabel l))
      <$> filter (fun l => ScatterLabel.isHidden l = false)
            (concat (labelsOf rd <$> foregroundGroups rd)).
Proof.
  unfold renderForegroundLabels.
  apply (group_label_texts (fun series ls => imap _ ls)).
  intros s ls.
  apply label_array_texts.
  - intros i l0. destruct (ScatterLabel.isHidden l0); reflexivity.
  - intros i l0 ->. reflexivity.
Qed.

Lemma groups_concat_Permutation {B : Type}
    (f : ScatterRenderSeries.t -> list B) (rd : RenderData) :
  concat (f <$> backgroundGroups rd) ++ concat (f <$> foregroundGroups rd)
  ≡ₚ concat (f <$> rd_series rd).
Proof.
  unfold backgroundGroups, foregroundGroups.
  induction (rd_series rd) as [|s l IH]; [reflexivity |].
  rewrite !filter_cons, fmap_cons. cbn [concat].
  destruct (ScatterRenderSeries.isForeground s).
  - rewrite decide_False by discriminate.
    rewrite decide_True by reflexivity.
    rewrite fmap_cons. cbn [concat]. rewrite <- IH.
    rewrite !app_assoc. apply Permutation_app_tail, Permutation_app_comm.
  - rewrite decide_True by reflexivity.
    rewrite decide_False by discriminate.
    rewrite fmap_cons. cbn [concat]. by rewrite <- IH, app_assoc.
Qed.

Lemma lookup_total_seq_all {A : Type} `{!Inhabited A} (l : list A) :
  (fun i => l !!! i) <$> seq 0 (length l) = l.
Proof.
  apply list_eq. intros i. rewrite list_lookup_fmap.
  destruct (decide (i < length l)%nat) as [Hlt|Hge].
  - rewrite lookup_seq_lt by assumption. simpl.
    destruct (lookup_lt_is_Some_2 l i Hlt) as [a Ha].
    by rewrite Ha, (list_lookup_total_correct _ _ _ Ha).
  - rewrite lookup_seq_ge by lia. by rewrite lookup_ge_None_2 by lia.
Qed.

(** The labels that the series list are, one series after the other, the
    labels of the store. *)
Lemma labelsOf_all (rd : RenderData) :
  renderData E this = Some rd ->
  concat (labelsOf rd <$> rd_series rd) = rd_labels rd.
Proof.
  intros Hrd.
  assert (concat (ScatterRenderSeries.allLabels <$> rd_series rd)
          = seq 0 (length (rd_labels rd))) as Hall.
  { apply renderData_inv in Hrd as (ird & _ & Hfrom).
    apply renderDataFrom_inv in Hfrom as (store & _ & Hall & _ & Hlab).
    by rewrite Hall, Hlab, resolveLabels_length. }
  transitivity ((fun i => rd_labels rd !!! i) <$> seq 0 (length (rd_labels rd)));
    [| apply lookup_total_seq_all].
  rewrite <- Hall. unfold labelsOf. generalize (rd_series rd). intros l.
  induction l as [|s l IH]; [reflexivity |].
  rewrite !fmap_cons. cbn [concat]. by rewrite fmap_app, IH.
Qed.

End Drawing.

(** X21: what [render] draws as text is exactly the visible labels of
    the render data: every [text] element shows the text of one visible
    label at the left and the bottom of its box in its font size, every
    visible label is shown by one [text] element, and a hidden label by
    none. *)
Theorem render_shows_visible_labels (E : Externals) (D : DrawingExternals)
    (this : PointsWithLabels) (rd : RenderData) (e : Element) :
  renderData E this = Some rd ->
  render E D this = Some e ->
  shownText <$> textElements e
  ≡ₚ (fun l => Some (shownLabel l))
       <$> filter (fun l => ScatterLabel.isHidden l = false) (rd_labels rd).
Proof.
  intros Hrd Hrender.
  pose proof (labelsOf_all E this rd Hrd) as Hall.
  unfold render in Hrender. rewrite Hrd in Hrender. simpl in Hrender.
  destruct (decide (rd_series rd = [])) as [Hnil|_].
  - injection Hrender as <-. rewrite Hnil in Hall. simpl in Hall.
    rewrite <- Hall. reflexivity.
  - injection Hrender as <-.
    cbn [textElements String.eqb Ascii.eqb Bool.eqb map concat app].
    rewrite !app_nil_r.
    unfold renderBackgroundLines, renderForegroundLines.
    rewrite (lines_no_text (renderBackgroundLine E D this))
      by apply renderBackgroundLine_no_text.
    rewrite (lines_no_text (renderForegroundLine E this))
      by apply renderForegroundLine_no_text.
    cbn [app]. rewrite fmap_app.
    rewrite background_label_texts, foreground_label_texts.
    rewrite <- fmap_app, <- filter_app, <- Hall.
    apply fmap_Permutation, filter_Permutation, groups_concat_Permutation.
Qed.

Lemma render_shows_visible_labels_witness :
  renderData sampleExternals (mount crowdedProps) = Some crowdedRenderData /\
  exists e,
    render sampleExternals sampleDrawing (mount crowdedProps) = Some e /\
    shownText <$> textElements e
    ≡ₚ (fun l => Some (shownLabel l))
         <$> filter (fun l => ScatterLabel.isHidden l = false)
               (rd_labels crowdedRenderData).
Proof.
  assert (renderData sampleExternals (mount crowdedProps)
          = Some crowdedRenderData) as Hrd by (vm_compute; reflexivity).
  split; [exact Hrd |].
  assert (render sampleExternals sampleDrawing (mount crowdedProps)
          = Some crowdedDrawing) as Hrender by (vm_compute; reflexivity).
  exists crowdedDrawing. split; [exact Hrender |].
  exact (render_shows_visible_labels sampleExternals sampleDrawing
           (mount crowdedProps) crowdedRenderData crowdedDrawing Hrd Hrender).
Defined.

(** X22: [render] gives the [NoData] element exactly when the chart has
    no series at all. *)
Theorem render_NoData (E : Externals) (D : DrawingExternals)
    (this : PointsWithLabels) :
  render E D this = Some (El "NoData" [("bounds", ABounds (bounds this))] [])
  <-> data this = [].
Proof.
  split.
  - intros Hrender. unfold render in Hrender.
    destruct (renderData E this) as [rd|] eqn:Hrd; [| discriminate].
    simpl in Hrender.
    destruct (decide (rd_series rd = [])) as [Hnil|_]; [| discriminate].
    apply renderData_length in Hrd. rewrite Hnil in Hrd.
    by apply nil_length_inv.
  - intros Hnil.
    destruct (renderData E this) as [rd|] eqn:Hrd.
    + unfold render. rewrite Hrd. simpl.
      apply renderData_length in Hrd. rewrite Hnil in Hrd.
      apply nil_length_inv in Hrd.
      by rewrite decide_True by exact Hrd.
    + exfalso.
      assert (is_Some (renderData E this)) as [rd Hsome].
      { apply renderData_is_Some. rewrite Hnil. constructor. }
      congruence.
Qed.

(** ** Keys of the drawn labels *)

(** Elements drawn by position with keys that differ from one position to
    the next have distinct keys. *)
Lemma keys_by_position_NoDup (g : nat -> string)
    (draw : nat -> ScatterLabel.t -> Element) (ls : list ScatterLabel.t) :
  Inj (=) (=) g ->
  (forall i l k, keyOf (draw i l) = Some k -> k = g i) ->
  NoDup (omap keyOf (imap draw ls)).
Proof.
  revert g draw. induction ls as [|l ls IH]; intros g draw Hinj Hkey;
    [constructor |].
  rewrite imap_cons. cbn [omap list_omap].
  assert (NoDup (omap keyOf (imap (draw ∘ S) ls))) as Hrest.
  { apply (IH (g ∘ S)).
    - intros i j Hij. apply Hinj in Hij. by injection Hij.
    - intros i l0 k Hk. exact (Hkey (S i) l0 k Hk). }
  destruct (keyOf (draw 0%nat l)) as [k|] eqn:Hk; [| exact Hrest].
  apply NoDup_cons. split; [| exact Hrest].
  intros Hin. apply list_elem_of_omap in Hin as (x & Hx & Hkx).
  apply list_elem_of_lookup in Hx as [j Hj].
  rewrite list_lookup_imap in Hj.
  destruct (ls !! j) as [l0|]; [| discriminate].
  simpl in Hj. injection Hj as <-.
  apply Hkey in Hk. apply Hkey in Hkx. rewrite Hk in Hkx.
  apply Hinj in Hkx. discriminate.
Qed.

(** A background series lists one label. *)
Lemma background_allLabels (E : Externals) (this : PointsWithLabels)
    (rd : RenderData) (s : ScatterRenderSeries.t) :
  renderData E this = Some rd ->
  s ∈ backgroundGroups rd ->
  length (ScatterRenderSeries.allLabels s) = 1%nat.
Proof.
  intros Hrd Hs. apply list_elem_of_filter in Hs as [Hbg Hs].
  apply list_elem_of_lookup in Hs as [i Hi].
  destruct (series_labels_inv E this rd i s Hrd Hi)
    as (s0 & n & lend & Hv & Ht & Hh & Hf & He & Hstart & Hmid & Hend & Hall
        & Hlook).
  assert (makeStartLabel E this i s0 = None) as Hnone.
  { unfold makeStartLabel. by rewrite <- Hf, Hbg. }
  assert (makeMidLabels E this i s0 = []) as Hnil.
  { unfold makeMidLabels. by rewrite <- Hf, Hbg. }
  rewrite Hnone, Hnil in Hall. simpl in Hall. by rewrite Hall.
Qed.

(** X23: in every array of labels that is drawn, for a background or a
    foreground series, the keys of the drawn [text] elements are distinct.
    The labels of a foreground series are keyed by their position; those of
    a background series all get the same key, and there is one of them. *)
Theorem label_keys_distinct (E : Externals) (this : PointsWithLabels)
    (rd : RenderData) (a : Element) :
  renderData E this = Some rd ->
  a ∈ renderBackgroundLabels this rd ++ renderForegroundLabels rd ->
  exists items, a = Arr items /\ NoDup (omap keyOf items).
Proof.
  intros Hrd Ha. apply elem_of_app in Ha as [Ha|Ha].
  - unfold renderBackgroundLabels in Ha.
    apply list_elem_of_fmap in Ha as (s & -> & Hs).
    eexists. split; [reflexivity |].
    pose proof (background_allLabels E this rd s Hrd Hs) as Hone.
    unfold labelsOf.
    destruct (ScatterRenderSeries.allLabels s) as [|e [|e' rest]];
      try discriminate.
    simpl. destruct (keyOf _); [apply NoDup_singleton | constructor].
  - unfold renderForegroundLabels in Ha.
    apply list_elem_of_fmap in Ha as (s & -> & Hs).
    eexists. split; [reflexivity |].
    apply (keys_by_position_NoDup
             (fun i => ScatterRenderSeries.displayKey s
                       +:+ "-label-" +:+ pretty i)).
    + intros i j Hij. by simplify_eq.
    + intros i l k. destruct (ScatterLabel.isHidden l); [discriminate |].
      simpl. congruence.
Qed.

Lemma label_keys_distinct_witness :
  renderData sampleExternals (mount sampleProps) = Some sampleRenderData
  /\ sampleForegroundLabels
       ∈ renderBackgroundLabels (mount sampleProps) sampleRenderData
         ++ renderForegroundLabels sampleRenderData
  /\ exists items,
       sampleForegroundLabels = Arr items
       /\ NoDup (omap keyOf items).
Proof.
  assert (renderData sampleExternals (mount sampleProps)
          = Some sampleRenderData) as Hrd by (vm_compute; reflexivity).
  assert (sampleForegroundLabels
            ∈ renderBackgroundLabels (mount sampleProps) sampleRenderData
              ++ renderForegroundLabels sampleRenderData) as Ha.
  { apply list_elem_of_lookup. exists 1%nat. vm_compute. reflexivity. }
  split; [exact Hrd |]. split; [exact Ha |].
  exact (label_keys_distinct sampleExternals (mount sampleProps)
           sampleRenderData _ Hrd Ha).
Defined.
